(** * script.js: the filter / aggregate / flatten pipeline of the grouped bar chart

    A shallow embedding of [src/script.js].  The script loads a CSV file with
    [d3.csv], projects and filters its records, caches the filtered rows on
    [window], and on every change of the dimension selector recomputes a
    grouped bar chart from the cache.

    Conventions of the embedding:
    - a JavaScript string is a [string], every character standing for one
      code unit; the strings covered are those of code units below 256;
    - a JavaScript number is a binary64 [float] (the kernel's primitive
      floats), so NaN, the infinities and both zeros are there;
    - a property that holds a string, [undefined] or [null] is a [field];
    - a [Map] (d3's [InternMap]) is an association list in insertion order,
      a [Set] a duplicate-free list in insertion order;
    - an exception is a [Throw] in the [completion] of a call;
    - the page is a [window] record threaded through the calls.

    The functions of d3 and of the language that the script calls
    ([d3.rollup], [d3.mean], [d3.max], [Array.prototype.sort], unary plus)
    are embedded from their definitions.  Of the drawing, what depends on
    the data is kept: which elements are appended and the data bound to
    them, and the colours the ordinal scale gives them.  Pixel positions,
    transitions and the output of [console.log] are not part of the
    embedding. *)

From Stdlib Require Import List String Ascii ZArith NArith Bool Arith Lia.
From Stdlib Require Import Sorting.Sorted Sorting.Permutation.
From Stdlib Require Import PrimFloat SpecFloat FloatOps FloatAxioms.
Import ListNotations.

Open Scope string_scope.
Open Scope list_scope.

(** ** JavaScript values *)

(** What a property read off a CSV record or a row can hold. *)
Inductive field : Type :=
| undefined
| null
| Str (s : string).

Definition field_eqb (a b : field) : bool :=
  match a, b with
  | undefined, undefined => true
  | null, null => true
  | Str s, Str t => String.eqb s t
  | _, _ => false
  end.

(** [a === b] on fields; also the SameValueZero test of [Map] and [Set] keys. *)
Definition strict_eq (a b : field) : bool := field_eqb a b.

(** [ToBoolean]: [undefined], [null] and the empty string are falsy. *)
Definition truthy (a : field) : bool :=
  match a with
  | undefined | null => false
  | Str "" => false
  | Str _ => true
  end.

(** [ToString] on fields. *)
Definition ToString (a : field) : string :=
  match a with
  | undefined => "undefined"
  | null => "null"
  | Str s => s
  end.

Inductive error : Type := TypeError.

(** The completion of an expression or a call: a value, or an exception. *)
Inductive completion (A : Type) : Type :=
| Normal (a : A)
| Throw (e : error).
Arguments Normal {A} a.
Arguments Throw {A} e.

Definition bind {A B : Type} (c : completion A) (k : A -> completion B)
  : completion B :=
  match c with
  | Normal a => k a
  | Throw e => Throw e
  end.

Notation "x <- c ;; k" := (bind c (fun x => k))
  (at level 61, c at next level, right associativity).

(** ** Numbers *)

(** [!(v >= v)]: [v] is NaN. *)
Definition isNaN (v : float) : bool := negb (PrimFloat.leb v v).

Definition float_of_Z (z : Z) : float :=
  SF2Prim (binary_normalize prec emax z 0 false).

Definition float_of_nat (n : nat) : float := float_of_Z (Z.of_nat n).

(** ** Unary plus on strings: StringToNumber *)

Module StringToNumber.

(** WhiteSpace and LineTerminator code units below 256. *)
Definition is_white (c : ascii) : bool :=
  let n := N_of_ascii c in
  ((9 <=? n) && (n <=? 13) || (n =? 32) || (n =? 160))%N.

Fixpoint trim_start (s : string) : string :=
  match s with
  | String c s' => if is_white c then trim_start s' else s
  | EmptyString => EmptyString
  end.

Fixpoint trim_end (s : string) : string :=
  match s with
  | EmptyString => EmptyString
  | String c s' =>
      match trim_end s' with
      | EmptyString => if is_white c then EmptyString else String c EmptyString
      | t => String c t
      end
  end.

Definition trim (s : string) : string := trim_end (trim_start s).

Definition digit_of (radix : Z) (c : ascii) : option Z :=
  let n := Z.of_N (N_of_ascii c) in
  let v := (if (48 <=? n) && (n <=? 57) then Some (n - 48)
            else if (97 <=? n) && (n <=? 122) then Some (n - 87)
            else if (65 <=? n) && (n <=? 90) then Some (n - 55)
            else None)%Z in
  match v with
  | Some d => if (d <? radix)%Z then Some d else None
  | None => None
  end.

(** Reads the longest run of digits: the value so far, how many digits
    were read, and what follows them. *)
Fixpoint read_digits (radix acc : Z) (count : nat) (s : string)
  : Z * nat * string :=
  match s with
  | String c s' =>
      match digit_of radix c with
      | Some d => read_digits radix (acc * radix + d)%Z (S count) s'
      | None => (acc, count, s)
      end
  | EmptyString => (acc, count, s)
  end.

(** The binary64 value nearest to [num / den] (ties to even), for
    [0 <= num] and [0 < den]: the quotient is taken with 64 extra bits and
    a sticky bit, then rounded once. *)
Definition round_ratio (num den : Z) : float :=
  if (den =? 1)%Z then float_of_Z num
  else
    let k := (64 + Z.log2_up den)%Z in
    let (q, r) := Z.div_eucl (num * 2 ^ k) den in
    let m := (2 * q + (if (r =? 0)%Z then 0 else 1))%Z in
    SF2Prim (binary_normalize prec emax m (- (k + 1)) false).

(** The value of the mathematical number [m * 10 ^ e], rounded. *)
Definition decimal_value (m e : Z) : float :=
  if (0 <=? e)%Z then round_ratio (m * 10 ^ e) 1
  else round_ratio m (10 ^ (- e)).

Definition signed (neg : bool) (v : float) : float :=
  if neg then (- v)%float else v.

(** ExponentPart, or nothing, up to the end of the string. *)
Definition read_exponent (s : string) : option Z :=
  match s with
  | EmptyString => Some 0%Z
  | String c s' =>
      if (Ascii.eqb c "e" || Ascii.eqb c "E")%char then
        let '(neg, ds) :=
          match s' with
          | String "+" t => (false, t)
          | String "-" t => (true, t)
          | _ => (false, s')
          end in
        match read_digits 10 0 0 ds with
        | (_, O, _) => None
        | (x, S _, EmptyString) => Some (if neg then - x else x)%Z
        | (_, S _, String _ _) => None
        end
      else None
  end.

(** StrUnsignedDecimalLiteral. *)
Definition unsigned_decimal (s : string) : option float :=
  if String.eqb s "Infinity" then Some infinity
  else
    let '(ip, n1, r1) := read_digits 10 0 0 s in
    let '(m, n2, r2) :=
      match r1 with
      | String "." t => read_digits 10 ip 0 t
      | _ => (ip, O, r1)
      end in
    match (n1 + n2)%nat with
    | O => None
    | S _ =>
        match read_exponent r2 with
        | Some x => Some (decimal_value m (x - Z.of_nat n2))
        | None => None
        end
    end.

(** StrDecimalLiteral: an optional sign, then the unsigned literal. *)
Definition decimal (s : string) : option float :=
  let '(neg, u) :=
    match s with
    | String "+" t => (false, t)
    | String "-" t => (true, t)
    | _ => (false, s)
    end in
  option_map (signed neg) (unsigned_decimal u).

(** NonDecimalIntegerLiteral: [0x], [0o] or [0b] and at least one digit. *)
Definition non_decimal (s : string) : option float :=
  match s with
  | String "0" (String p t) =>
      let radix :=
        if (Ascii.eqb p "x" || Ascii.eqb p "X")%char then Some 16%Z
        else if (Ascii.eqb p "o" || Ascii.eqb p "O")%char then Some 8%Z
        else if (Ascii.eqb p "b" || Ascii.eqb p "B")%char then Some 2%Z
        else None in
      match radix with
      | Some r =>
          match read_digits r 0 0 t with
          | (v, S _, EmptyString) => Some (float_of_Z v)
          | _ => None
          end
      | None => None
      end
  | _ => None
  end.

Definition StringToNumber (s : string) : float :=
  let t := trim s in
  if String.eqb t "" then zero
  else
    match non_decimal t with
    | Some v => v
    | None =>
        match decimal t with
        | Some v => v
        | None => nan
        end
    end.

End StringToNumber.

(** [+a] for a field [a]: ToNumber. *)
Definition ToNumber (a : field) : float :=
  match a with
  | undefined => nan
  | null => zero
  | Str s => StringToNumber.StringToNumber s
  end.

(** ** STEP 1: records, rows and the filtered base set *)

(** The object [d3.csv] hands to the row accessor: one property per column
    of the file (a string), [undefined] for a column the file lacks. *)
Module Csv.
Record t : Type := {
  Class : field;
  Topic : field;
  StratificationCategory1 : field;
  Stratification1 : field;
  StratificationCategory2 : field;
  Stratification2 : field;
  Data_Value : field
}.
End Csv.

(** The object the row accessor returns.  [Value] is [None] for [null]. *)
Record row : Type := {
  Class : field;
  Topic : field;
  StratCat1 : field;
  Strat1 : field;
  StratCat2 : field;
  Strat2 : field;
  Value : option float
}.

(** [d => ({ Class: d.Class, ..., Value: d.Data_Value === "" ? null : +d.Data_Value })] *)
Definition row_accessor (d : Csv.t) : row :=
  {| Class := Csv.Class d;
     Topic := Csv.Topic d;
     StratCat1 := Csv.StratificationCategory1 d;
     Strat1 := Csv.Stratification1 d;
     StratCat2 := Csv.StratificationCategory2 d;
     Strat2 := Csv.Stratification2 d;
     Value := if strict_eq (Csv.Data_Value d) (Str "") then None
              else Some (ToNumber (Csv.Data_Value d)) |}.

Definition excluded_topic : string :=
  "Talked with health care professional about subjective cognitive decline or memory loss".

(** [d.Value !== null] *)
Definition not_null (v : option float) : bool :=
  match v with
  | Some _ => true
  | None => false
  end.

(** The callback of [rows.filter] in the [then] handler. *)
Definition base_filter (d : row) : bool :=
  strict_eq (Class d) (Str "Cognitive Decline") &&
  negb (strict_eq (Topic d) (Str excluded_topic)) &&
  negb (strict_eq (Strat1 d) (Str "Overall")) &&
  not_null (Value d).

(** [const base = rows.filter(...)] *)
Definition base (rows : list row) : list row := filter base_filter rows.

(** ** STEP 3 and 4: the age layer and the rows of the chosen dimension *)

(** Whether [search] occurs in [s] from some position on. *)
Fixpoint occurs (search s : string) : bool :=
  String.prefix search s ||
  match s with
  | EmptyString => false
  | String _ s' => occurs search s'
  end.

(** [this.includes(search)]: a method call, which throws on a receiver
    that is [undefined] or [null]. *)
Definition includes (this : field) (search : string) : completion bool :=
  match this with
  | Str s => Normal (occurs search s)
  | undefined | null => Throw TypeError
  end.

(** [Array.prototype.filter] with a callback that may throw. *)
Fixpoint filterM {A : Type} (p : A -> completion bool) (l : list A)
  : completion (list A) :=
  match l with
  | [] => Normal []
  | a :: l' =>
      b <- p a ;;
      r <- filterM p l' ;;
      Normal (if b then a :: r else r)
  end.

(** [d => d.StratCat1 === "Age Group"] *)
Definition age_filter (d : row) : bool := strict_eq (StratCat1 d) (Str "Age Group").

(** [d => d.StratCat2 === "Sex"] *)
Definition sex_filter (d : row) : bool := strict_eq (StratCat2 d) (Str "Sex").

(** [d => d.StratCat2 && (d.StratCat2.includes("Race") || d.StratCat2.includes("Ethnic"))];
    [&&] and [||] evaluate their right operand only when needed. *)
Definition ethnicity_filter (d : row) : completion bool :=
  if truthy (StratCat2 d) then
    r <- includes (StratCat2 d) "Race" ;;
    if r then Normal true else includes (StratCat2 d) "Ethnic"
  else Normal false.

(** The same callback without the guard [d.StratCat2 &&]. *)
Definition unguarded_ethnicity_filter (d : row) : completion bool :=
  r <- includes (StratCat2 d) "Race" ;;
  if r then Normal true else includes (StratCat2 d) "Ethnic".

Definition ageLayer (base : list row) : list row := filter age_filter base.

Definition dimLabel (mode : string) : string :=
  if String.eqb mode "sex" then "Sex" else "Ethnicity".

(** [rows], the Dimension View, as the [if (mode === "sex")] statement
    assigns it. *)
Definition rows (mode : string) (base : list row) : completion (list row) :=
  if String.eqb mode "sex" then Normal (filter sex_filter (ageLayer base))
  else filterM ethnicity_filter (ageLayer base).

(** ** d3-array: InternMap, rollup, mean, max *)

(** d3's [InternMap], a [Map]: entries in insertion order, at most one per
    key.  The keys here are fields, which [InternMap] interns as they are. *)
Module InternMap.
Definition t (V : Type) : Type := list (field * V).

Section Ops.
Context {V : Type}.

Fixpoint get (key : field) (m : t V) : option V :=
  match m with
  | [] => None
  | (k, v) :: m' => if strict_eq k key then Some v else get key m'
  end.

(** [set] on a key that is present keeps the entry's position. *)
Fixpoint set (key : field) (v : V) (m : t V) : t V :=
  match m with
  | [] => [(key, v)]
  | (k, x) :: m' =>
      if strict_eq k key then (k, v) :: m' else (k, x) :: set key v m'
  end.

Definition keys (m : t V) : list field := map fst m.
End Ops.

(** [for (const [key, values] of groups) groups.set(key, f(values))] *)
Definition map_values {V W : Type} (f : V -> W) (m : t V) : t W :=
  map (fun '(k, v) => (k, f v)) m.
End InternMap.

Module d3.
Section Nest.
Context {A : Type}.

(** The body of the loop of [nest]:
    [const group = groups.get(key); if (group) group.push(value); else groups.set(key, [value]);] *)
Definition add_value (keyof : A -> field) (groups : InternMap.t (list A))
           (value : A) : InternMap.t (list A) :=
  let key := keyof value in
  match InternMap.get key groups with
  | Some group => InternMap.set key (group ++ [value]) groups
  | None => InternMap.set key [value] groups
  end.

(** The loop of [nest] over [values], from an empty [InternMap]. *)
Definition groups_of (keyof : A -> field) (values : list A)
  : InternMap.t (list A) :=
  fold_left (add_value keyof) values [].

(** [d3.rollup(values, reduce, key1, key2)]: [nest] with two keys. *)
Definition rollup {R : Type} (values : list A) (reduce : list A -> R)
           (key1 key2 : A -> field) : InternMap.t (InternMap.t R) :=
  InternMap.map_values
    (fun values1 => InternMap.map_values reduce (groups_of key2 values1))
    (groups_of key1 values).

(** One turn of the loop of [d3.mean]:
    [if ((value = valueof(value)) != null && (value = +value) >= value) ++count, sum += value;] *)
Definition mean_step (valueof : A -> option float) (acc : nat * float)
           (value : A) : nat * float :=
  let '(count, sum) := acc in
  match valueof value with
  | Some v => if PrimFloat.leb v v then (S count, (sum + v)%float) else acc
  | None => acc
  end.

(** [d3.mean(values, valueof)], which ends with
    [if (count) return sum / count;].  A value is [None] when it is null
    or undefined, and so is the result when it is undefined.  [count] is a
    number in the source; an array has fewer than 2^32 elements, so it
    stays an exact integer. *)
Definition mean (values : list A) (valueof : A -> option float)
  : option float :=
  let '(count, sum) := fold_left (mean_step valueof) values (O, zero) in
  match count with
  | O => None
  | S _ => Some (sum / float_of_nat count)%float
  end.

(** One turn of the loop of [d3.max]:
    [if (value != null && (max < value || (max === undefined && value >= value))) max = value;] *)
Definition max_step (valueof : A -> option float) (max : option float)
           (value : A) : option float :=
  match valueof value with
  | Some v =>
      match max with
      | Some m => if PrimFloat.ltb m v then Some v else max
      | None => if PrimFloat.leb v v then Some v else None
      end
  | None => max
  end.

(** [d3.max(values, valueof)]; [None] is [undefined]. *)
Definition max (values : list A) (valueof : A -> option float)
  : option float :=
  fold_left (max_step valueof) values None.
End Nest.
End d3.

(** ** Sets and sorting *)

(** [s.add(x)]: a value that is in the set already is not added again. *)
Definition Set_add (s : list field) (x : field) : list field :=
  if existsb (strict_eq x) s then s else s ++ [x].

(** [new Set(values)]: the distinct values in order of first occurrence. *)
Definition new_Set (values : list field) : list field :=
  fold_left Set_add values [].

(** The default comparison of [Array.prototype.sort]: [undefined] goes
    last, everything else is compared as a string, code unit by code unit. *)
Definition SortCompare (x y : field) : comparison :=
  match x, y with
  | undefined, undefined => Eq
  | undefined, _ => Gt
  | _, undefined => Lt
  | _, _ => String.compare (ToString x) (ToString y)
  end.

Fixpoint insert (x : field) (l : list field) : list field :=
  match l with
  | [] => [x]
  | y :: l' =>
      match SortCompare x y with
      | Gt => y :: insert x l'
      | _ => x :: l
      end
  end.

(** [array.sort()]: the stable sort by [SortCompare]. *)
Definition sort (l : list field) : list field := fold_right insert [] l.

(** ** STEP 5: the aggregate table, the axis domains and the flattened series *)

Module Datum.
(** An element of [flatData], and the datum bound to a bar.  [Value] is
    [None] for [undefined]. *)
Record t : Type := {
  AgeGroup : field;
  Category : field;
  Value : option float
}.
End Datum.

Definition AggregateTable : Type := InternMap.t (InternMap.t (option float)).

(** [d3.rollup(rows, v => d3.mean(v, d => d.Value), d => d.Strat1, d => d.Strat2)] *)
Definition nested (rows : list row) : AggregateTable :=
  d3.rollup rows (fun v => d3.mean v Value) Strat1 Strat2.

(** [Array.from(nested.keys()).sort()] *)
Definition ageGroups (nested : AggregateTable) : list field :=
  sort (InternMap.keys nested).

(** [Array.from(new Set(rows.map(d => d.Strat2))).sort()] *)
Definition categories (rows : list row) : list field :=
  sort (new_Set (map Strat2 rows)).

(** The two nested [for ... of] loops pushing onto [flatData]. *)
Definition flatData (nested : AggregateTable) : list Datum.t :=
  flat_map
    (fun '(age, catMap) =>
       map (fun '(cat, val) =>
              {| Datum.AgeGroup := age; Datum.Category := cat; Datum.Value := val |})
           catMap)
    nested.

(** ** STEP 7: the data bound to the bars *)

(** The callback of [categories.map]:
    [found = flatData.find(d => d.AgeGroup === age && d.Category === cat)],
    then [Value: found ? found.Value : 0]. *)
Definition bar (flatData : list Datum.t) (age cat : field) : Datum.t :=
  let found :=
    find (fun d => strict_eq (Datum.AgeGroup d) age &&
                   strict_eq (Datum.Category d) cat) flatData in
  {| Datum.AgeGroup := age;
     Datum.Category := cat;
     Datum.Value := match found with
                    | Some d => Datum.Value d
                    | None => Some zero
                    end |}.

(** [age => categories.map(cat => ...)], for every age group. *)
Definition bars (flatData : list Datum.t) (ageGroups categories : list field)
  : list (field * list Datum.t) :=
  map (fun age => (age, map (bar flatData age) categories)) ageGroups.

(** ** The page: [window], the SVG and [updateGroupedChart] *)

(** The text of a bar's [<title>],
    [`Age group: ${d.AgeGroup}\n${dimLabel}: ${d.Category}\nAverage percentage: ${d.Value.toFixed(2)}`],
    with the interpolated parts kept apart. *)
Record tooltip : Type := {
  tip_AgeGroup : field;
  tip_dimLabel : string;
  tip_Category : field;
  tip_Value : float
}.

(** A [<rect>]: the datum bound to it and the text of its [<title>]
    ([None] while the title has no text). *)
Record rect : Type := {
  rect_datum : Datum.t;
  rect_title : option tooltip
}.

(** The children of the [<svg>] element, as far as they depend on the data:
    the group of age-group groups with their bars, the two axes with the
    domain of their scale (for the y axis, the upper end given to [domain]
    before [nice]), the title and the legend. *)
Inductive element : Type :=
| BarGroups (groups : list (field * list rect))
| AxisBottom (domain : list field)
| AxisLeft (top : option float)
| ChartTitle (text : string)
| Legend (entries : list field).

Record window : Type := {
  __svg__ : option (list element);
  __baseData__ : option (list row)
}.

(** [createSvg()]: a fresh, empty [<svg>], saved on [window]. *)
Definition createSvg (w : window) : window :=
  {| __svg__ := Some []; __baseData__ := __baseData__ w |}.

(** The callback of [.text(...)] on one bar: [d.Value.toFixed(2)] throws
    when [d.Value] is [undefined]. *)
Definition title_text (dimLabel : string) (d : Datum.t) : completion tooltip :=
  match Datum.Value d with
  | Some v => Normal {| tip_AgeGroup := Datum.AgeGroup d;
                        tip_dimLabel := dimLabel;
                        tip_Category := Datum.Category d;
                        tip_Value := v |}
  | None => Throw TypeError
  end.

(** [.text(...)] over the bars of one group, in order, up to the first
    exception. *)
Fixpoint set_titles (dimLabel : string) (rs : list rect)
  : list rect * completion unit :=
  match rs with
  | [] => ([], Normal tt)
  | r :: rs' =>
      match title_text dimLabel (rect_datum r) with
      | Normal t =>
          let '(rs'', c) := set_titles dimLabel rs' in
          ({| rect_datum := rect_datum r; rect_title := Some t |} :: rs'', c)
      | Throw e => (rs, Throw e)
      end
  end.

(** The same over all groups, in document order. *)
Fixpoint set_group_titles (dimLabel : string) (gs : list (field * list rect))
  : list (field * list rect) * completion unit :=
  match gs with
  | [] => ([], Normal tt)
  | (age, rs) :: gs' =>
      match set_titles dimLabel rs with
      | (rs', Normal _) =>
          let '(gs'', c) := set_group_titles dimLabel gs' in
          ((age, rs') :: gs'', c)
      | (rs', Throw e) => ((age, rs') :: gs', Throw e)
      end
  end.

(** The constants a call of [updateGroupedChart] computes in STEP 3 to 5. *)
Record scope : Type := {
  scope_rows : list row;
  scope_nested : AggregateTable;
  scope_ageGroups : list field;
  scope_categories : list field;
  scope_flatData : list Datum.t
}.

(** What a call leaves behind beside the page: the constants it computed,
    if it got that far, and how it completed. *)
Record run : Type := {
  computed : option scope;
  completed : completion unit
}.

Definition chart_title (mode : string) : string :=
  ("Average reported percentage of cognitive decline by Age Group and "
     ++ dimLabel mode)%string.

Definition updateGroupedChart (mode : string) (w : window) : window * run :=
  match __svg__ w with
  | None =>
      (* svg.selectAll on undefined *)
      (w, {| computed := None; completed := Throw TypeError |})
  | Some _ =>
      (* svg.selectAll("*").remove() *)
      let cleared := {| __svg__ := Some []; __baseData__ := __baseData__ w |} in
      match __baseData__ w with
      | None =>
          (* base.filter on undefined *)
          (cleared, {| computed := None; completed := Throw TypeError |})
      | Some base =>
          match rows mode base with
          | Throw e => (cleared, {| computed := None; completed := Throw e |})
          | Normal rows =>
              let nested := nested rows in
              let ageGroups := ageGroups nested in
              let categories := categories rows in
              let flatData := flatData nested in
              let sc := {| scope_rows := rows;
                           scope_nested := nested;
                           scope_ageGroups := ageGroups;
                           scope_categories := categories;
                           scope_flatData := flatData |} in
              let joined :=
                map (fun '(age, ds) =>
                       (age, map (fun d => {| rect_datum := d; rect_title := None |}) ds))
                    (bars flatData ageGroups categories) in
              match set_group_titles (dimLabel mode) joined with
              | (groups, Throw e) =>
                  ({| __svg__ := Some [BarGroups groups];
                      __baseData__ := __baseData__ w |},
                   {| computed := Some sc; completed := Throw e |})
              | (groups, Normal _) =>
                  ({| __svg__ := Some [BarGroups groups;
                                       AxisBottom ageGroups;
                                       AxisLeft (d3.max flatData Datum.Value);
                                       ChartTitle (chart_title mode);
                                       Legend categories];
                      __baseData__ := __baseData__ w |},
                   {| computed := Some sc; completed := Normal tt |})
              end
          end
      end
  end.

(** The callback of [d3.csv(...).then]: filter, cache, create the SVG,
    register the handler of the selector, draw the initial view. *)
Definition loaded (rows : list row) (w : window) : window * run :=
  let base := base rows in
  let w := {| __svg__ := __svg__ w; __baseData__ := Some base |} in
  let w := createSvg w in
  updateGroupedChart "sex" w.

(** [d3.csv(file, row_accessor).then(loaded)] once the file has been read
    into [records]. *)
Definition load (records : list Csv.t) (w : window) : window * run :=
  loaded (map row_accessor records) w.

(** The [change] handler of the selector: [updateGroupedChart(this.value)].
    An exception ends the handler and leaves the page as it is then. *)
Definition change (value : string) (w : window) : window :=
  fst (updateGroupedChart value w).

(** A session: the load, then the selector changed to each of [values]. *)
Definition session (records : list Csv.t) (values : list string) (w : window)
  : window :=
  fold_left (fun w value => change value w) values (fst (load records w)).


(** ** STEP 5, continued: the colour scale *)

(** [d3.scaleOrdinal()] with its implicit unknown value: the scale keeps
    the position of every value of its domain, and gives a value that is
    not in the domain the next position, extending the domain. *)
Module Ordinal.
Record t : Type := {
  index : InternMap.t nat;
  domain : list field;
  range : list string
}.

(** [d3.scaleOrdinal()] *)
Definition empty : t := {| index := []; domain := []; range := [] |}.

(** [index.set(value, domain.push(value) - 1)] *)
Definition push (value : field) (s : t) : t :=
  {| index := InternMap.set value (List.length (domain s)) (index s);
     domain := domain s ++ [value];
     range := range s |}.

(** [scale.domain(values)]: from an empty domain,
    [for (const value of values) { if (index.has(value)) continue; index.set(value, domain.push(value) - 1); }] *)
Definition set_domain (values : list field) (s : t) : t :=
  fold_left
    (fun st value =>
       match InternMap.get value (index st) with
       | Some _ => st
       | None => push value st
       end)
    values {| index := []; domain := []; range := range s |}.

(** [scale.range(values)] *)
Definition set_range (values : list string) (s : t) : t :=
  {| index := index s; domain := domain s; range := values |}.

(** [scale(d)]:
    [let i = index.get(d); if (i === undefined) index.set(d, i = domain.push(d) - 1); return range[i % range.length];]
    The result is [None] for [undefined], which an empty range gives. *)
Definition scale (s : t) (d : field) : t * option string :=
  match InternMap.get d (index s) with
  | Some i => (s, nth_error (range s) (i mod List.length (range s)))
  | None =>
      (push d s,
       nth_error (range s) (List.length (domain s) mod List.length (range s)))
  end.
End Ordinal.

(** [d3.schemeSet2] and [d3.schemeCategory10], as d3-scale-chromatic
    defines them. *)
Definition schemeSet2 : list string :=
  ["#66c2a5"; "#fc8d62"; "#8da0cb"; "#e78ac3";
   "#a6d854"; "#ffd92f"; "#e5c494"; "#b3b3b3"].

Definition schemeCategory10 : list string :=
  ["#1f77b4"; "#ff7f0e"; "#2ca02c"; "#d62728"; "#9467bd";
   "#8c564b"; "#e377c2"; "#7f7f7f"; "#bcbd22"; "#17becf"].

(** [d3.schemeSet2 || d3.schemeCategory10], [set2] being [None] in a
    build of d3 without it. *)
Definition palette (set2 : option (list string)) : list string :=
  match set2 with
  | Some colors => colors
  | None => schemeCategory10
  end.

(** [d3.scaleOrdinal().domain(categories).range(palette)] *)
Definition color (palette : list string) (categories : list field) : Ordinal.t :=
  Ordinal.set_range palette (Ordinal.set_domain categories Ordinal.empty).

(** [color] called on each of [cats] in turn, as [.attr("fill", d => color(d.Category))]
    does over the bars and [categories.forEach] over the legend. *)
Fixpoint fills (color : Ordinal.t) (cats : list field)
  : Ordinal.t * list (option string) :=
  match cats with
  | [] => (color, [])
  | cat :: cats' =>
      let '(color1, fill) := Ordinal.scale color cat in
      let '(color2, fills') := fills color1 cats' in
      (color2, fill :: fills')
  end.

(** The fills of the bars, in document order, and then those of the swatches
    of the legend. *)
Definition chart_fills (palette : list string) (flatData : list Datum.t)
           (ageGroups categories : list field)
  : list (option string) * list (option string) :=
  let color := color palette categories in
  let '(color1, bar_fills) :=
    fills color
          (map Datum.Category
               (List.concat (map snd (bars flatData ageGroups categories)))) in
  let '(_, legend_fills) := fills color1 categories in
  (bar_fills, legend_fills).


(** * Vocabulary of the properties

    What the statements below speak of beside the program: substrings,
    means of lists, the order of a sorted array, the look-up of a pair in
    the aggregate table, and the sample inputs of the examples. *)

(** [t] occurs in [s] as a substring. *)
Definition contains (t s : string) : Prop :=
  exists a b : string, s = (a ++ t ++ b)%string.

(** What the ethnicity callback answers, as a total test. *)
Definition ethnicity_test (d : row) : bool :=
  match StratCat2 d with
  | Str s => occurs "Race" s || occurs "Ethnic" s
  | undefined | null => false
  end.

(** The test a row passes to enter the dimension view of [mode]. *)
Definition dimension_test (mode : string) (d : row) : bool :=
  age_filter d &&
  (if String.eqb mode "sex" then sex_filter d else ethnicity_test d).

(** StratCat2 matches the selected dimension. *)
Definition matches_dimension (mode : string) (d : row) : Prop :=
  (mode = "sex" /\ StratCat2 d = Str "Sex") \/
  (mode <> "sex" /\
   exists s, StratCat2 d = Str s /\ (contains "Race" s \/ contains "Ethnic" s)).

(** A row of the age layer read from a file without the column
    StratificationCategory2. *)
Definition row_without_StratCat2 : row :=
  {| Class := Str "Cognitive Decline";
     Topic := Str "Functional difficulties";
     StratCat1 := Str "Age Group";
     Strat1 := Str "65 years or older";
     StratCat2 := undefined;
     Strat2 := undefined;
     Value := Some 10%float |}.

(** A list, unless it is empty. *)
Definition nonempty {A : Type} (l : list A) : option (list A) :=
  match l with
  | [] => None
  | _ :: _ => Some l
  end.

(** The values of [l] whose key is [k], in order. *)
Definition keyed {A : Type} (keyof : A -> field) (k : field) (l : list A)
  : list A :=
  filter (fun v => strict_eq (keyof v) k) l.

(** [nested.get(age)], then [.get(cat)] on the inner map: [None] when the
    pair has no entry, [Some v] when its entry holds [v]. *)
Definition lookup (t : AggregateTable) (age cat : field) : option (option float) :=
  match InternMap.get age t with
  | Some catMap => InternMap.get cat catMap
  | None => None
  end.

(** The rows whose Strat1 is [age] and whose Strat2 is [cat], in order. *)
Definition matching (age cat : field) (rows : list row) : list row :=
  filter (fun d => strict_eq (Strat1 d) age && strict_eq (Strat2 d) cat) rows.

(** The sum of a list of numbers, added up from the left in binary64
    arithmetic. *)
Definition fsum (vs : list float) : float := fold_left PrimFloat.add vs zero.

(** The arithmetic mean of a list of numbers: their sum divided by how many
    they are. *)
Definition arithmetic_mean (vs : list float) : float :=
  (fsum vs / float_of_nat (List.length vs))%float.

(** The values that are not null. *)
Definition non_null (vs : list (option float)) : list float :=
  flat_map (fun v => match v with Some x => [x] | None => [] end) vs.

(** The values that are numbers other than NaN. *)
Definition numeric (vs : list (option float)) : list float :=
  filter (fun x => negb (isNaN x)) (non_null vs).

(** The mean of the numbers of a list, undefined when it has none. *)
Definition mean_of_numbers (vs : list (option float)) : option float :=
  match numeric vs with
  | [] => None
  | _ :: _ => Some (arithmetic_mean (numeric vs))
  end.

(** A record of the file with the given Stratification1,
    StratificationCategory2, Stratification2 and Data_Value, of the class
    and the category the chart keeps. *)
Definition sample_record (strat1 cat2 strat2 data_value : string) : Csv.t :=
  {| Csv.Class := Str "Cognitive Decline";
     Csv.Topic := Str "Functional difficulties";
     Csv.StratificationCategory1 := Str "Age Group";
     Csv.Stratification1 := Str strat1;
     Csv.StratificationCategory2 := Str cat2;
     Csv.Stratification2 := Str strat2;
     Csv.Data_Value := Str data_value |}.

(** Two records of one pair, the first with a Data_Value that is no number. *)
Definition records_with_NaN : list Csv.t :=
  [ sample_record "65 years or older" "Sex" "Female" "N/A";
    sample_record "65 years or older" "Sex" "Female" "10" ].

(** [x] may stand before [y] in an array sorted by [SortCompare]. *)
Definition sort_le (x y : field) : Prop := SortCompare x y <> Gt.

(** The age group and the category of a datum. *)
Definition pair_of (d : Datum.t) : field * field :=
  (Datum.AgeGroup d, Datum.Category d).

(** The pairs of keys of a table, in the order of its entries. *)
Definition pairs_of {V : Type} (t : InternMap.t (InternMap.t V))
  : list (field * field) :=
  flat_map (fun '(age, catMap) => map (pair age) (InternMap.keys catMap)) t.

(** All the data bound to bars, in document order. *)
Definition bar_data (groups : list (field * list Datum.t)) : list Datum.t :=
  List.concat (map snd groups).

(** The data bound to the bars of drawn groups. *)
Definition bound_data (groups : list (field * list rect))
  : list (field * list Datum.t) :=
  map (fun '(age, rs) => (age, map rect_datum rs)) groups.

(** Two records with different age groups and different categories. *)
Definition records_of_two_pairs : list Csv.t :=
  [ sample_record "50-64 years" "Sex" "Male" "12.5";
    sample_record "65 years or older" "Sex" "Female" "10" ].

(** The page once the file of [records_of_two_pairs] has been filtered and
    the SVG created. *)
Definition page_of_two_pairs : window :=
  {| __svg__ := Some [];
     __baseData__ := Some (base (map row_accessor records_of_two_pairs)) |}.

(** A record whose Data_Value is text, not a number. *)
Definition record_not_a_number : Csv.t :=
  sample_record "65 years or older" "Sex" "Female" "N/A".

(** The datum has a Value that is not undefined. *)
Definition valued (d : Datum.t) : bool :=
  match Datum.Value d with
  | Some _ => true
  | None => false
  end.

(** A bar as the data join leaves it, without a text in its title. *)
Definition untitled (d : Datum.t) : rect :=
  {| rect_datum := d; rect_title := None |}.

(** A bar with the text of its title set. *)
Definition titled (label : string) (d : Datum.t) : rect :=
  {| rect_datum := d;
     rect_title := match Datum.Value d with
                   | Some v => Some {| tip_AgeGroup := Datum.AgeGroup d;
                                       tip_dimLabel := label;
                                       tip_Category := Datum.Category d;
                                       tip_Value := v |}
                   | None => None
                   end |}.

(** Every pair of the view that has rows has a row whose Value is a number
    other than NaN. *)
Definition every_pair_has_a_number (view : list row) : Prop :=
  forall age cat,
    matching age cat view <> [] ->
    numeric (map Value (matching age cat view)) <> [].

(** The page once a file whose only record has a Data_Value that is no
    number has been filtered and the SVG created. *)
Definition page_of_NaN : window :=
  {| __svg__ := Some [];
     __baseData__ := Some (base (map row_accessor [record_not_a_number])) |}.

(** A page with an SVG whose cached base set is empty. *)
Definition page_without_rows : window :=
  {| __svg__ := Some []; __baseData__ := Some [] |}.

(** The page right after the filtered rows of [records] have been cached
    and the SVG created. *)
Definition fresh_page (records : list Csv.t) : window :=
  {| __svg__ := Some [];
     __baseData__ := Some (base (map row_accessor records)) |}.

(** The string consists of white space only. *)
Fixpoint blank (s : string) : bool :=
  match s with
  | EmptyString => true
  | String c s' => StringToNumber.is_white c && blank s'
  end.

(** A record whose Data_Value is one space. *)
Definition record_with_a_space : Csv.t :=
  sample_record "65 years or older" "Sex" "Female" " ".

(** The fill the scale of [palette] and [categories] gives a category. *)
Definition fill_of (palette : list string) (categories : list field)
           (cat : field) : option string :=
  snd (Ordinal.scale (color palette categories) cat).

(** Nine records of one age group with nine different categories. *)
Definition records_of_nine_categories : list Csv.t :=
  map (fun c => sample_record "65 years or older" "Race/Ethnicity" c "1")
      ["a"; "b"; "c"; "d"; "e"; "f"; "g"; "h"; "i"].

(** The rows of the base set of [records_of_two_pairs]. *)
Definition rows_of_two_pairs : list row :=
  base (map row_accessor records_of_two_pairs).


(** * Properties *)

(** ** Unary plus *)

Example ToNumber_decimal : ToNumber (Str "12.5") = 12.5%float.
Proof. vm_compute. reflexivity. Qed.

Example ToNumber_unparseable : ToNumber (Str "N/A") = nan.
Proof. vm_compute. reflexivity. Qed.

Example ToNumber_blank : ToNumber (Str "  ") = zero.
Proof. vm_compute. reflexivity. Qed.

(** ** Strict equality and truthiness *)

Lemma strict_eq_spec (a b : field) : reflect (a = b) (strict_eq a b).
Proof.
  destruct a, b; simpl; try (constructor; congruence).
  destruct (String.eqb_spec s s0); constructor; congruence.
Qed.

Lemma strict_eq_true (a b : field) : strict_eq a b = true <-> a = b.
Proof. destruct (strict_eq_spec a b); split; congruence. Qed.

Lemma strict_eq_false (a b : field) : strict_eq a b = false <-> a <> b.
Proof. destruct (strict_eq_spec a b); split; congruence. Qed.

Lemma strict_eq_refl (a : field) : strict_eq a a = true.
Proof. now apply strict_eq_true. Qed.

Lemma field_eq_dec (a b : field) : {a = b} + {a <> b}.
Proof.
  destruct (strict_eq_spec a b) as [H|H]; [left | right]; exact H.
Qed.

Lemma not_null_true (v : option float) : not_null v = true <-> v <> None.
Proof. destruct v; simpl; split; congruence. Qed.

(** ** The filter stage *)

Lemma base_filter_true (d : row) :
  base_filter d = true <->
  Class d = Str "Cognitive Decline" /\
  Topic d <> Str excluded_topic /\
  Strat1 d <> Str "Overall" /\
  Value d <> None.
Proof.
  unfold base_filter.
  rewrite !andb_true_iff, !negb_true_iff, strict_eq_true, !strict_eq_false,
    not_null_true.
  tauto.
Qed.

Lemma base_In (raw : list row) (d : row) :
  In d (base raw) <->
  In d raw /\
  Class d = Str "Cognitive Decline" /\
  Topic d <> Str excluded_topic /\
  Strat1 d <> Str "Overall" /\
  Value d <> None.
Proof.
  unfold base. rewrite filter_In, base_filter_true. reflexivity.
Qed.

(** C2. A row is in the filtered base set exactly when it is one of the raw
    rows and passes the four tests together: its Class is "Cognitive
    Decline", its Topic is not the excluded topic, its Strat1 is not
    "Overall", and its Value is not null. *)
Theorem base_iff_four_predicates (raw : list row) (d : row) :
  In d (base raw) <->
  In d raw /\
  Class d = Str "Cognitive Decline" /\
  Topic d <> Str excluded_topic /\
  Strat1 d <> Str "Overall" /\
  Value d <> None.
Proof.
  exact (base_In raw d).
Qed.

(** ** Substrings *)

Lemma prefix_append (t s : string) :
  String.prefix t s = true <-> exists b, s = (t ++ b)%string.
Proof.
  revert s. induction t as [|c t IH]; intros s; simpl.
  - destruct s; split; eauto.
  - destruct s as [|c' s]; simpl.
    + split; [discriminate | intros [b Hb]; discriminate].
    + destruct (ascii_dec c c') as [->|Hne].
      * rewrite IH. split; intros [b Hb]; exists b; congruence.
      * split; [discriminate | intros [b Hb]; congruence].
Qed.

Lemma occurs_unfold (t s : string) :
  occurs t s =
  String.prefix t s ||
  match s with
  | EmptyString => false
  | String _ s' => occurs t s'
  end.
Proof. destruct s; reflexivity. Qed.

Lemma occurs_contains (t s : string) : occurs t s = true <-> contains t s.
Proof.
  unfold contains. induction s as [|c s IH]; rewrite occurs_unfold.
  - rewrite orb_false_r, prefix_append. split.
    + intros [b Hb]. exists "", b. exact Hb.
    + intros [a [b Hab]]. destruct a; [|discriminate]. exists b. exact Hab.
  - rewrite orb_true_iff, prefix_append, IH. split.
    + intros [[b Hb]|[a [b Hab]]].
      * exists "", b. exact Hb.
      * exists (String c a), b. simpl. now rewrite Hab.
    + intros [a [b Hab]]. destruct a as [|c' a]; simpl in Hab.
      * left. now exists b.
      * right. exists a, b. congruence.
Qed.

(** ** The dimension view *)

Lemma ethnicity_filter_Normal (d : row) :
  ethnicity_filter d = Normal (ethnicity_test d).
Proof.
  unfold ethnicity_filter, ethnicity_test.
  destruct (StratCat2 d) as [| |s]; simpl; try reflexivity.
  destruct s as [|c s]; [reflexivity|].
  cbn [truthy bind includes].
  destruct (occurs "Race" (String c s)); reflexivity.
Qed.

Lemma filterM_Normal {A : Type} (p : A -> completion bool) (q : A -> bool)
      (l : list A) :
  (forall a, p a = Normal (q a)) -> filterM p l = Normal (filter q l).
Proof.
  intros H. induction l as [|a l IH]; simpl; [reflexivity|].
  rewrite H, IH. simpl. reflexivity.
Qed.

Lemma rows_Normal (mode : string) (base : list row) :
  rows mode base = Normal (filter (dimension_test mode) base).
Proof.
  unfold rows, ageLayer, dimension_test.
  destruct (String.eqb mode "sex").
  - f_equal. induction base as [|d l IH]; simpl; [reflexivity|].
    destruct (age_filter d); simpl; [destruct (sex_filter d)|]; congruence.
  - rewrite (filterM_Normal _ _ _ ethnicity_filter_Normal). f_equal.
    induction base as [|d l IH]; simpl; [reflexivity|].
    destruct (age_filter d); simpl; [destruct (ethnicity_test d)|]; congruence.
Qed.

Lemma ethnicity_test_true (d : row) :
  ethnicity_test d = true <->
  exists s, StratCat2 d = Str s /\ (contains "Race" s \/ contains "Ethnic" s).
Proof.
  unfold ethnicity_test. destruct (StratCat2 d) as [| |s].
  - split; [discriminate | intros [s [H _]]; discriminate].
  - split; [discriminate | intros [s [H _]]; discriminate].
  - rewrite orb_true_iff, !occurs_contains. split.
    + intros H. now exists s.
    + intros [s' [[= <-] H]]. exact H.
Qed.

Lemma dimension_test_true (mode : string) (d : row) :
  dimension_test mode d = true <->
  StratCat1 d = Str "Age Group" /\ matches_dimension mode d.
Proof.
  unfold dimension_test, matches_dimension, age_filter, sex_filter.
  rewrite andb_true_iff, strict_eq_true.
  destruct (String.eqb_spec mode "sex") as [Hm|Hm].
  - rewrite strict_eq_true. intuition congruence.
  - rewrite ethnicity_test_true. intuition congruence.
Qed.

(** C3. The dimension view is computed without an exception, and a row of
    the filtered base set is in it exactly when its StratCat1 is "Age Group"
    and its StratCat2 matches the selected dimension: it is "Sex" when the
    selector is "sex", and otherwise it is a string containing "Race" or
    "Ethnic". *)
Theorem dimension_view_membership (mode : string) (base : list row) :
  exists view,
    rows mode base = Normal view /\
    forall d, In d view <->
              In d base /\
              StratCat1 d = Str "Age Group" /\ matches_dimension mode d.
Proof.
  exists (filter (dimension_test mode) base). split.
  - apply rows_Normal.
  - intros d. rewrite filter_In, dimension_test_true. reflexivity.
Qed.

(** Without the guard the callback throws on such a row. *)
Lemma unguarded_ethnicity_filter_throws (d : row) :
  StratCat2 d = undefined \/ StratCat2 d = null ->
  unguarded_ethnicity_filter d = Throw TypeError.
Proof.
  unfold unguarded_ethnicity_filter. intros [-> | ->]; reflexivity.
Qed.

(** C10. On a row whose StratCat2 is undefined or null the callback of the
    ethnicity branch returns a falsy value and does not throw: the guard is
    falsy, so [includes] is never called.  With any such rows in the base
    set the filter of the ethnicity branch completes normally and leaves
    them out of the dimension view. *)
Theorem ethnicity_filter_guard (d : row) :
  StratCat2 d = undefined \/ StratCat2 d = null ->
  ethnicity_filter d = Normal false /\
  forall (mode : string) (base : list row),
    mode <> "sex" ->
    exists view, rows mode base = Normal view /\ ~ In d view.
Proof.
  intros H. split.
  - unfold ethnicity_filter. destruct H as [-> | ->]; reflexivity.
  - intros mode base Hm. exists (filter (dimension_test mode) base). split.
    + apply rows_Normal.
    + rewrite filter_In, dimension_test_true.
      intros [_ [_ [[Hs _] | [_ [s [Hs _]]]]]]; [contradiction|].
      destruct H as [H | H]; congruence.
Qed.

Lemma ethnicity_filter_guard_witness :
  ethnicity_filter row_without_StratCat2 = Normal false /\
  forall (mode : string) (base : list row),
    mode <> "sex" ->
    exists view, rows mode base = Normal view /\ ~ In row_without_StratCat2 view.
Proof.
  apply (ethnicity_filter_guard row_without_StratCat2).
  left. reflexivity.
Defined.

(** ** InternMap *)

Section InternMapFacts.
Context {V : Type}.
Implicit Types (m : InternMap.t V) (k : field) (v : V).

Lemma get_None m k :
  InternMap.get k m = None <-> ~ In k (InternMap.keys m).
Proof.
  induction m as [|[k' v'] m IH]; simpl.
  - tauto.
  - destruct (strict_eq_spec k' k) as [->|Hne].
    + split; [discriminate | intros H; exfalso; apply H; now left].
    + rewrite IH. tauto.
Qed.

Lemma get_Some_In m k v : InternMap.get k m = Some v -> In (k, v) m.
Proof.
  induction m as [|[k' v'] m IH]; simpl; [discriminate|].
  destruct (strict_eq_spec k' k) as [->|Hne].
  - intros [= ->]. now left.
  - intros H. right. now apply IH.
Qed.

Lemma In_get m k v :
  NoDup (InternMap.keys m) -> In (k, v) m -> InternMap.get k m = Some v.
Proof.
  induction m as [|[k' v'] m IH]; simpl; [tauto|].
  intros Hnd [[= -> ->]|Hin].
  - now rewrite strict_eq_refl.
  - inversion Hnd as [|? ? Hk Hm]; subst.
    destruct (strict_eq_spec k' k) as [->|Hne].
    + exfalso. apply Hk. apply (in_map fst) in Hin. exact Hin.
    + now apply IH.
Qed.

Lemma get_set_same m k v : InternMap.get k (InternMap.set k v m) = Some v.
Proof.
  induction m as [|[k' v'] m IH]; simpl.
  - now rewrite strict_eq_refl.
  - destruct (strict_eq_spec k' k) as [->|Hne]; simpl.
    + now rewrite strict_eq_refl.
    + destruct (strict_eq_spec k' k); [contradiction | exact IH].
Qed.

Lemma get_set_other m k k' v :
  k <> k' -> InternMap.get k' (InternMap.set k v m) = InternMap.get k' m.
Proof.
  intros Hne. induction m as [|[k0 v0] m IH]; simpl.
  - destruct (strict_eq_spec k k'); [contradiction | reflexivity].
  - destruct (strict_eq_spec k0 k) as [->|Hk]; simpl.
    + destruct (strict_eq_spec k k'); [contradiction | reflexivity].
    + now rewrite IH.
Qed.

Lemma keys_set_present m k v x :
  InternMap.get k m = Some x ->
  InternMap.keys (InternMap.set k v m) = InternMap.keys m.
Proof.
  induction m as [|[k0 v0] m IH]; simpl; [discriminate|].
  destruct (strict_eq_spec k0 k) as [->|Hk]; simpl; [reflexivity|].
  intros H. now rewrite IH.
Qed.

Lemma set_absent m k v :
  InternMap.get k m = None -> InternMap.set k v m = m ++ [(k, v)].
Proof.
  induction m as [|[k0 v0] m IH]; simpl; [reflexivity|].
  destruct (strict_eq_spec k0 k) as [->|Hk]; [discriminate|].
  intros H. now rewrite IH.
Qed.

End InternMapFacts.

Lemma get_map_values {V W : Type} (f : V -> W) (m : InternMap.t V) (k : field) :
  InternMap.get k (InternMap.map_values f m) = option_map f (InternMap.get k m).
Proof.
  induction m as [|[k' v'] m IH]; simpl; [reflexivity|].
  destruct (strict_eq k' k); [reflexivity | exact IH].
Qed.

Lemma keys_map_values {V W : Type} (f : V -> W) (m : InternMap.t V) :
  InternMap.keys (InternMap.map_values f m) = InternMap.keys m.
Proof.
  unfold InternMap.keys, InternMap.map_values. rewrite map_map.
  apply map_ext. now intros [k v].
Qed.

(** ** Grouping *)

Section GroupFacts.
Context {A : Type} (keyof : A -> field).

Lemma groups_of_snoc (vs : list A) (v : A) :
  d3.groups_of keyof (vs ++ [v]) =
  d3.add_value keyof (d3.groups_of keyof vs) v.
Proof. unfold d3.groups_of. now rewrite fold_left_app. Qed.

Lemma keyed_snoc (k : field) (vs : list A) (v : A) :
  keyed keyof k (vs ++ [v]) =
  keyed keyof k vs ++ (if strict_eq (keyof v) k then [v] else []).
Proof. unfold keyed. rewrite filter_app. reflexivity. Qed.

Lemma nonempty_snoc (l : list A) (v : A) : nonempty (l ++ [v]) = Some (l ++ [v]).
Proof. destruct l; reflexivity. Qed.

Lemma nonempty_Some (l g : list A) : nonempty l = Some g -> g = l /\ l <> [].
Proof. destruct l; simpl; [discriminate|]. intros [= <-]. split; congruence. Qed.

Lemma nonempty_None (l : list A) : nonempty l = None -> l = [].
Proof. destruct l; simpl; [reflexivity | discriminate]. Qed.

(** The groups have distinct keys, and the group of a key holds the values
    of that key, in order; a key without values has no group. *)
Lemma groups_of_spec (vs : list A) :
  NoDup (InternMap.keys (d3.groups_of keyof vs)) /\
  forall k, InternMap.get k (d3.groups_of keyof vs) = nonempty (keyed keyof k vs).
Proof.
  induction vs as [|v vs [IHnd IHget]] using rev_ind.
  - split; [constructor | reflexivity].
  - rewrite groups_of_snoc. unfold d3.add_value.
    set (m := d3.groups_of keyof vs) in *.
    pose proof (IHget (keyof v)) as Hkey.
    destruct (InternMap.get (keyof v) m) as [g|] eqn:Hg.
    + symmetry in Hkey. apply nonempty_Some in Hkey as [-> Hne]. split.
      * now rewrite (keys_set_present _ _ _ _ Hg).
      * intros k. rewrite keyed_snoc.
        destruct (strict_eq_spec (keyof v) k) as [<-|Hk].
        -- now rewrite get_set_same, nonempty_snoc.
        -- now rewrite get_set_other, app_nil_r, IHget.
    + symmetry in Hkey. apply nonempty_None in Hkey. split.
      * rewrite (set_absent _ _ _ Hg). unfold InternMap.keys.
        rewrite map_app. simpl.
        apply (Permutation_NoDup (l := keyof v :: map fst m)).
        -- apply Permutation_cons_append.
        -- constructor; [now apply get_None | exact IHnd].
      * intros k. rewrite keyed_snoc.
        destruct (strict_eq_spec (keyof v) k) as [<-|Hk].
        -- now rewrite get_set_same, Hkey.
        -- now rewrite get_set_other, app_nil_r, IHget.
Qed.

Lemma groups_of_keys (vs : list A) (k : field) :
  In k (InternMap.keys (d3.groups_of keyof vs)) <->
  exists v, In v vs /\ keyof v = k.
Proof.
  destruct (groups_of_spec vs) as [_ Hget]. specialize (Hget k). split.
  - intros Hin.
    destruct (keyed keyof k vs) as [|v g] eqn:Hk.
    + exfalso. revert Hin. now apply get_None.
    + assert (Hv : In v (keyed keyof k vs)) by (rewrite Hk; now left).
      apply filter_In in Hv as [Hv Heq]. exists v.
      split; [exact Hv | now apply strict_eq_true].
  - intros [v [Hv Heq]].
    destruct (in_dec field_eq_dec k (InternMap.keys (d3.groups_of keyof vs)))
      as [Hin|Hout]; [exact Hin|].
    apply get_None in Hout. rewrite Hout in Hget.
    symmetry in Hget. apply nonempty_None in Hget.
    assert (Hin : In v (keyed keyof k vs)).
    { apply filter_In. split; [exact Hv | now apply strict_eq_true]. }
    rewrite Hget in Hin. destruct Hin.
Qed.

Lemma groups_of_entries (vs : list A) (k : field) (g : list A) :
  In (k, g) (d3.groups_of keyof vs) -> g = keyed keyof k vs /\ g <> [].
Proof.
  destruct (groups_of_spec vs) as [Hnd Hget]. intros Hin.
  apply (In_get _ _ _ Hnd) in Hin. rewrite Hget in Hin.
  apply nonempty_Some in Hin as [-> Hne]. now split.
Qed.

End GroupFacts.

(** ** The aggregate table *)

Lemma keyed_keyed (age cat : field) (rows : list row) :
  keyed Strat2 cat (keyed Strat1 age rows) = matching age cat rows.
Proof.
  unfold keyed, matching. induction rows as [|d l IH]; simpl; [reflexivity|].
  destruct (strict_eq (Strat1 d) age); simpl; [|exact IH].
  destruct (strict_eq (Strat2 d) cat); now rewrite IH.
Qed.

Lemma matching_In (age cat : field) (rows : list row) (d : row) :
  In d (matching age cat rows) <-> In d rows /\ Strat1 d = age /\ Strat2 d = cat.
Proof.
  unfold matching. now rewrite filter_In, andb_true_iff, !strict_eq_true.
Qed.

(** The entry of a pair in the table is [reduce] of its rows; a pair
    without rows has no entry. *)
Lemma lookup_nested (age cat : field) (rows : list row) :
  lookup (nested rows) age cat =
  option_map (fun g => d3.mean g Value) (nonempty (matching age cat rows)).
Proof.
  unfold lookup, nested, d3.rollup.
  rewrite get_map_values.
  destruct (groups_of_spec Strat1 rows) as [_ Hget]. rewrite Hget.
  destruct (keyed Strat1 age rows) as [|d g] eqn:Hk; simpl.
  - rewrite <- keyed_keyed, Hk. reflexivity.
  - rewrite get_map_values.
    destruct (groups_of_spec Strat2 (d :: g)) as [_ Hget2]. rewrite Hget2.
    now rewrite <- Hk, keyed_keyed.
Qed.

Lemma fold_mean_step {A : Type} (valueof : A -> option float) (g : list A)
      (count : nat) (sum : float) :
  fold_left (d3.mean_step valueof) g (count, sum) =
  (count + List.length (numeric (map valueof g)),
   fold_left PrimFloat.add (numeric (map valueof g)) sum).
Proof.
  revert count sum. induction g as [|a g IH]; intros count sum; simpl.
  - now rewrite Nat.add_0_r.
  - unfold numeric, non_null. simpl.
    destruct (valueof a) as [v|]; simpl.
    + unfold isNaN. rewrite negb_involutive.
      destruct (PrimFloat.leb v v); simpl; rewrite IH; unfold numeric, non_null.
      * now rewrite Nat.add_succ_r.
      * reflexivity.
    + now rewrite IH.
Qed.

(** [d3.mean] is the arithmetic mean of the values that are numbers. *)
Lemma mean_mean_of_numbers {A : Type} (valueof : A -> option float) (g : list A) :
  d3.mean g valueof = mean_of_numbers (map valueof g).
Proof.
  unfold d3.mean, mean_of_numbers. rewrite fold_mean_step. simpl.
  destruct (numeric (map valueof g)) as [|x l]; reflexivity.
Qed.

Lemma numeric_all_numbers (vs : list float) :
  forallb (fun x => negb (isNaN x)) vs = true -> numeric (map Some vs) = vs.
Proof.
  unfold numeric, non_null. intros H.
  assert (Hflat : flat_map (fun v : option float =>
                              match v with Some x => [x] | None => [] end)
                           (map Some vs) = vs).
  { clear H. induction vs as [|x l IH]; simpl; [reflexivity | now rewrite IH]. }
  rewrite Hflat. clear Hflat.
  induction vs as [|x l IH]; simpl in *; [reflexivity|].
  apply andb_true_iff in H as [-> H]. now rewrite IH.
Qed.

(** C1, as the claim states it, fails: the two rows of the pair
    ("65 years or older", "Female") carry the Values NaN and 10; their
    arithmetic mean, (NaN + 10) / 2, is NaN, but the table holds 10, the
    mean of the second row alone. *)
Lemma aggregate_mean_of_all_values_counterexample :
  exists view,
    rows "sex" (base (map row_accessor records_with_NaN)) = Normal view /\
    map Value (matching (Str "65 years or older") (Str "Female") view)
      = [Some nan; Some 10%float] /\
    lookup (nested view) (Str "65 years or older") (Str "Female")
      = Some (Some 10%float) /\
    arithmetic_mean [nan; 10%float] = nan /\
    lookup (nested view) (Str "65 years or older") (Str "Female")
      <> Some (Some (arithmetic_mean
                       (non_null (map Value (matching (Str "65 years or older")
                                                      (Str "Female") view))))).
Proof.
  eexists. split; [vm_compute; reflexivity|].
  repeat split; try (vm_compute; reflexivity).
  vm_compute. discriminate.
Qed.

(** C1, amended. For every pair of an age group and a category, the
    aggregate table has an entry exactly when some row of the dimension view
    has that Strat1 and that Strat2, and the entry is the arithmetic mean of
    the Values, NaN left out, of exactly those rows (undefined when all of
    them are NaN). *)
Theorem aggregate_value_is_mean_of_numbers (mode : string) (base : list row) :
  exists view,
    rows mode base = Normal view /\
    forall age cat,
      lookup (nested view) age cat =
      match matching age cat view with
      | [] => None
      | _ :: _ => Some (mean_of_numbers (map Value (matching age cat view)))
      end.
Proof.
  exists (filter (dimension_test mode) base). split; [apply rows_Normal|].
  intros age cat. rewrite lookup_nested.
  destruct (matching age cat (filter (dimension_test mode) base)) as [|d g];
    simpl; [reflexivity|].
  now rewrite mean_mean_of_numbers.
Qed.

(** When none of the Values of the rows of a pair is NaN, the entry is the
    arithmetic mean of all of them. *)
Lemma aggregate_value_without_NaN (view : list row) (age cat : field)
      (vs : list float) :
  map Value (matching age cat view) = map Some vs ->
  vs <> [] ->
  forallb (fun x => negb (isNaN x)) vs = true ->
  lookup (nested view) age cat = Some (Some (arithmetic_mean vs)).
Proof.
  intros Hvs Hne Hnum. rewrite lookup_nested.
  destruct (matching age cat view) as [|d g] eqn:Hm.
  - destruct vs; [congruence | discriminate].
  - simpl. rewrite mean_mean_of_numbers, Hvs. unfold mean_of_numbers.
    rewrite (numeric_all_numbers _ Hnum).
    destruct vs; [congruence | reflexivity].
Qed.

(** ** Sorting *)

Lemma string_compare_cons (x y : ascii) (a b : string) :
  String.compare (String x a) (String y b) =
  match N.compare (N_of_ascii x) (N_of_ascii y) with
  | Eq => String.compare a b
  | Lt => Lt
  | Gt => Gt
  end.
Proof. simpl. unfold Ascii.compare. now destruct (N.compare _ _). Qed.

Lemma string_compare_le_trans (a b c : string) :
  String.compare a b <> Gt -> String.compare b c <> Gt ->
  String.compare a c <> Gt.
Proof.
  revert b c. induction a as [|x a IH]; intros [|y b] [|z c];
    try (simpl; congruence).
  rewrite !string_compare_cons.
  destruct (N.compare_spec (N_of_ascii x) (N_of_ascii y)),
           (N.compare_spec (N_of_ascii y) (N_of_ascii z)),
           (N.compare_spec (N_of_ascii x) (N_of_ascii z));
    try congruence; try lia.
  apply IH.
Qed.

Lemma SortCompare_antisym (x y : field) :
  SortCompare x y = CompOpp (SortCompare y x).
Proof.
  destruct x, y; cbv beta iota delta [SortCompare]; try reflexivity;
    apply String.compare_antisym.
Qed.

Lemma sort_le_total (x y : field) : sort_le x y \/ sort_le y x.
Proof.
  unfold sort_le. rewrite (SortCompare_antisym y x).
  destruct (SortCompare x y); simpl; [left | left | right]; congruence.
Qed.

Lemma sort_le_trans (x y z : field) : sort_le x y -> sort_le y z -> sort_le x z.
Proof.
  unfold sort_le.
  destruct x, y, z; cbv beta iota delta [SortCompare]; try congruence;
    apply string_compare_le_trans.
Qed.

(** On strings [sort_le] is the lexicographic order of the code units. *)
Lemma sort_le_Str (a b : string) :
  sort_le (Str a) (Str b) <-> String.leb a b = true.
Proof.
  unfold sort_le, String.leb. simpl.
  destruct (String.compare a b); split; congruence.
Qed.

Lemma insert_Permutation (x : field) (l : list field) :
  Permutation (insert x l) (x :: l).
Proof.
  induction l as [|y l IH]; simpl; [reflexivity|].
  destruct (SortCompare x y); try reflexivity.
  rewrite IH. apply perm_swap.
Qed.

Lemma sort_Permutation (l : list field) : Permutation (sort l) l.
Proof.
  induction l as [|x l IH]; simpl; [reflexivity|].
  rewrite insert_Permutation. now constructor.
Qed.

Lemma insert_StronglySorted (x : field) (l : list field) :
  StronglySorted sort_le l -> StronglySorted sort_le (insert x l).
Proof.
  induction 1 as [|y l Hs IH Hall]; simpl.
  - repeat constructor.
  - destruct (SortCompare x y) eqn:Hc.
    + constructor; [now constructor|]. constructor.
      * unfold sort_le. congruence.
      * eapply Forall_impl; [|exact Hall]. intros z Hz.
        apply (sort_le_trans x y z); [unfold sort_le; congruence | exact Hz].
    + constructor; [now constructor|]. constructor.
      * unfold sort_le. congruence.
      * eapply Forall_impl; [|exact Hall]. intros z Hz.
        apply (sort_le_trans x y z); [unfold sort_le; congruence | exact Hz].
    + constructor; [exact IH|].
      apply Forall_forall. intros z Hz.
      apply (Permutation_in _ (insert_Permutation x l)) in Hz.
      destruct Hz as [<-|Hz].
      * unfold sort_le. rewrite SortCompare_antisym, Hc. discriminate.
      * rewrite Forall_forall in Hall. now apply Hall.
Qed.

Lemma sort_StronglySorted (l : list field) : StronglySorted sort_le (sort l).
Proof.
  induction l as [|x l IH]; simpl; [constructor|].
  now apply insert_StronglySorted.
Qed.

Lemma sort_In (l : list field) (x : field) : In x (sort l) <-> In x l.
Proof.
  split; apply Permutation_in;
    [apply sort_Permutation | symmetry; apply sort_Permutation].
Qed.

Lemma sort_NoDup (l : list field) : NoDup l -> NoDup (sort l).
Proof.
  apply Permutation_NoDup. symmetry. apply sort_Permutation.
Qed.

Lemma sort_length (l : list field) : List.length (sort l) = List.length l.
Proof. apply Permutation_length, sort_Permutation. Qed.

(** The order is that of strings, not of numbers: "100+" sorts before
    "65-74", and [undefined] goes last. *)
Example sort_is_lexicographic :
  sort [undefined; Str "65-74"; Str "100+"; Str "9"] =
  [Str "100+"; Str "65-74"; Str "9"; undefined].
Proof. reflexivity. Qed.

(** ** Sets *)

Lemma existsb_strict_eq (x : field) (s : list field) :
  existsb (strict_eq x) s = true <-> In x s.
Proof.
  rewrite existsb_exists. split.
  - intros [y [Hy Heq]]. apply strict_eq_true in Heq. now subst.
  - intros H. exists x. split; [exact H | apply strict_eq_refl].
Qed.

Lemma fold_Set_add (values s : list field) :
  NoDup s ->
  NoDup (fold_left Set_add values s) /\
  forall x, In x (fold_left Set_add values s) <-> In x s \/ In x values.
Proof.
  revert s. induction values as [|v values IH]; intros s Hs; simpl.
  - split; [exact Hs | tauto].
  - unfold Set_add at 2 4.
    destruct (existsb (strict_eq v) s) eqn:He.
    + apply existsb_strict_eq in He.
      destruct (IH s Hs) as [Hnd Hin]. split; [exact Hnd|].
      intros x. rewrite Hin. intuition (subst; auto).
    + assert (Hv : ~ In v s).
      { intros H. apply existsb_strict_eq in H. congruence. }
      assert (Hs' : NoDup (s ++ [v])).
      { apply (Permutation_NoDup (l := v :: s)).
        - apply Permutation_cons_append.
        - now constructor. }
      destruct (IH _ Hs') as [Hnd Hin]. split; [exact Hnd|].
      intros x. rewrite Hin, in_app_iff. simpl. tauto.
Qed.

Lemma new_Set_NoDup (values : list field) : NoDup (new_Set values).
Proof. apply fold_Set_add. constructor. Qed.

Lemma new_Set_In (values : list field) (x : field) :
  In x (new_Set values) <-> In x values.
Proof.
  unfold new_Set. destruct (fold_Set_add values [] (NoDup_nil _)) as [_ H].
  rewrite H. simpl. tauto.
Qed.

(** ** The axis domains *)

Lemma nested_keys (rows : list row) :
  InternMap.keys (nested rows) = InternMap.keys (d3.groups_of Strat1 rows).
Proof. unfold nested, d3.rollup. apply keys_map_values. Qed.

Lemma ageGroups_In (rows : list row) (a : field) :
  In a (ageGroups (nested rows)) <-> exists d, In d rows /\ Strat1 d = a.
Proof.
  unfold ageGroups. rewrite sort_In, nested_keys. apply groups_of_keys.
Qed.

Lemma ageGroups_NoDup (rows : list row) : NoDup (ageGroups (nested rows)).
Proof.
  unfold ageGroups. apply sort_NoDup. rewrite nested_keys.
  apply groups_of_spec.
Qed.

Lemma categories_In (rows : list row) (c : field) :
  In c (categories rows) <-> exists d, In d rows /\ Strat2 d = c.
Proof.
  unfold categories. rewrite sort_In, new_Set_In, in_map_iff.
  split; intros [d [H1 H2]]; exists d; tauto.
Qed.

Lemma categories_NoDup (rows : list row) : NoDup (categories rows).
Proof. unfold categories. apply sort_NoDup, new_Set_NoDup. Qed.

(** C7. The age groups are the Strat1 values of the rows of the dimension
    view and the categories are their Strat2 values; each of the two arrays
    is free of duplicates and sorted by the default order of [sort], which
    on strings is the lexicographic order of the code units. *)
Theorem axis_domains_sorted_distinct (mode : string) (base : list row) :
  exists view,
    rows mode base = Normal view /\
    (forall a, In a (ageGroups (nested view)) <->
               exists d, In d view /\ Strat1 d = a) /\
    NoDup (ageGroups (nested view)) /\
    StronglySorted sort_le (ageGroups (nested view)) /\
    (forall c, In c (categories view) <->
               exists d, In d view /\ Strat2 d = c) /\
    NoDup (categories view) /\
    StronglySorted sort_le (categories view) /\
    (forall a b, sort_le (Str a) (Str b) <-> String.leb a b = true).
Proof.
  exists (filter (dimension_test mode) base).
  split; [apply rows_Normal|].
  split; [intros a; apply ageGroups_In|].
  split; [apply ageGroups_NoDup|].
  split; [apply sort_StronglySorted|].
  split; [intros c; apply categories_In|].
  split; [apply categories_NoDup|].
  split; [apply sort_StronglySorted | apply sort_le_Str].
Qed.

(** ** The flattened series *)

Lemma flatData_pairs (t : AggregateTable) :
  map pair_of (flatData t) = pairs_of t.
Proof.
  unfold flatData, pairs_of. induction t as [|[age catMap] t IH]; simpl.
  - reflexivity.
  - rewrite map_app, IH. f_equal.
    unfold InternMap.keys. rewrite !map_map.
    apply map_ext. now intros [cat val].
Qed.

Lemma pairs_of_In {V : Type} (t : InternMap.t (InternMap.t V)) (age cat : field) :
  In (age, cat) (pairs_of t) <->
  exists catMap, In (age, catMap) t /\ In cat (InternMap.keys catMap).
Proof.
  unfold pairs_of. rewrite in_flat_map. split.
  - intros [[age' catMap] [Ht Hin]].
    apply in_map_iff in Hin as [c [[= <- <-] Hc]]. now exists catMap.
  - intros [catMap [Ht Hc]]. exists (age, catMap).
    split; [exact Ht | now apply in_map].
Qed.

Lemma pairs_of_NoDup {V : Type} (t : InternMap.t (InternMap.t V)) :
  NoDup (InternMap.keys t) ->
  (forall age catMap, In (age, catMap) t -> NoDup (InternMap.keys catMap)) ->
  NoDup (pairs_of t).
Proof.
  induction t as [|[age catMap] t IH]; simpl; intros Hnd Hin.
  - constructor.
  - inversion Hnd as [|? ? Hage Ht]; subst. apply NoDup_app.
    + assert (Hk : NoDup (InternMap.keys catMap)) by (eapply Hin; now left).
      clear -Hk. induction Hk as [|c l Hc Hl IHl]; simpl; constructor; auto.
      rewrite in_map_iff. intros [c' [[= ->] Hc']]. contradiction.
    + apply IH; [exact Ht|]. intros a m Hm. apply (Hin a m). now right.
    + intros [a c] H1 H2.
      apply in_map_iff in H1 as [c' [[= <- <-] _]].
      apply pairs_of_In in H2 as [m [Hm _]].
      apply Hage. apply (in_map fst) in Hm. exact Hm.
Qed.

(** The entries of the table, spelled out. *)
Lemma nested_entries (rows : list row) (age : field)
      (catMap : InternMap.t (option float)) :
  In (age, catMap) (nested rows) ->
  catMap = InternMap.map_values (fun v => d3.mean v Value)
             (d3.groups_of Strat2 (keyed Strat1 age rows)).
Proof.
  unfold nested, d3.rollup, InternMap.map_values at 1. intros H.
  apply in_map_iff in H as [[age' g] [[= <- <-] Hg]].
  apply groups_of_entries in Hg as [-> _]. reflexivity.
Qed.

Lemma nested_NoDup (rows : list row) : NoDup (pairs_of (nested rows)).
Proof.
  apply pairs_of_NoDup.
  - rewrite nested_keys. apply groups_of_spec.
  - intros age catMap H. apply nested_entries in H as ->.
    rewrite keys_map_values. apply groups_of_spec.
Qed.

(** The pairs of the table are the pairs that occur in the rows. *)
Lemma nested_pairs (rows : list row) (age cat : field) :
  In (age, cat) (pairs_of (nested rows)) <->
  exists d, In d rows /\ Strat1 d = age /\ Strat2 d = cat.
Proof.
  rewrite pairs_of_In. split.
  - intros [catMap [Ht Hc]]. apply nested_entries in Ht as ->.
    rewrite keys_map_values in Hc.
    apply groups_of_keys in Hc as [d [Hd Hcat]].
    apply filter_In in Hd as [Hd Hage]. apply strict_eq_true in Hage.
    now exists d.
  - intros [d [Hd [Hage Hcat]]].
    pose proof (lookup_nested age cat rows) as Hl. unfold lookup in Hl.
    assert (Hm : In d (matching age cat rows)) by now apply matching_In.
    destruct (matching age cat rows) as [|d0 g]; [destruct Hm|].
    simpl in Hl.
    destruct (InternMap.get age (nested rows)) as [catMap|] eqn:Hg;
      [|discriminate].
    exists catMap. split; [now apply get_Some_In|].
    destruct (in_dec field_eq_dec cat (InternMap.keys catMap))
      as [Hin|Hout]; [exact Hin|].
    apply get_None in Hout. congruence.
Qed.

(** ** The data bound to the bars *)

Lemma bars_pairs (flat : list Datum.t) (ages cats : list field) :
  map pair_of (bar_data (bars flat ages cats)) = list_prod ages cats.
Proof.
  unfold bar_data, bars. induction ages as [|age ages IH]; simpl.
  - reflexivity.
  - rewrite map_app, IH. f_equal. rewrite map_map. reflexivity.
Qed.

Lemma bars_length (flat : list Datum.t) (ages cats : list field) :
  List.length (bar_data (bars flat ages cats)) =
  List.length ages * List.length cats.
Proof.
  rewrite <- (length_map pair_of), bars_pairs. apply length_prod.
Qed.

Lemma flatData_length_le (rows : list row) :
  List.length (flatData (nested rows)) <=
  List.length (ageGroups (nested rows)) * List.length (categories rows).
Proof.
  rewrite <- (length_map pair_of), flatData_pairs, <- length_prod.
  apply NoDup_incl_length; [apply nested_NoDup|].
  intros [age cat] H. apply nested_pairs in H as [d [Hd [Hage Hcat]]].
  apply in_prod.
  - apply ageGroups_In. now exists d.
  - apply categories_In. now exists d.
Qed.

(** C4, as the claim states it, fails: with two rows of different age groups
    and different categories [flatData] has the two entries of the table,
    while there are two age groups and two categories. *)
Lemma flatData_length_counterexample :
  exists view,
    rows "sex" (base (map row_accessor records_of_two_pairs)) = Normal view /\
    List.length (flatData (nested view)) = 2 /\
    List.length (ageGroups (nested view)) = 2 /\
    List.length (categories view) = 2 /\
    List.length (flatData (nested view)) <>
    List.length (ageGroups (nested view)) * List.length (categories view).
Proof.
  eexists. split; [vm_compute; reflexivity|].
  repeat split; try (vm_compute; reflexivity).
  vm_compute. discriminate.
Qed.

(** C4, amended. The data bound to the bars has exactly
    |ageGroups| * |categories| entries, one per pair of an age group and a
    category, in the order of the two arrays.  [flatData] has one entry per
    pair that occurs in the dimension view, which is at most that many. *)
Theorem bar_data_one_per_pair (mode : string) (base : list row) :
  exists view,
    rows mode base = Normal view /\
    let flat := flatData (nested view) in
    let ages := ageGroups (nested view) in
    let cats := categories view in
    map pair_of (bar_data (bars flat ages cats)) = list_prod ages cats /\
    List.length (bar_data (bars flat ages cats)) =
      List.length ages * List.length cats /\
    NoDup (map pair_of flat) /\
    (forall age cat,
        In (age, cat) (map pair_of flat) <->
        exists d, In d view /\ Strat1 d = age /\ Strat2 d = cat) /\
    List.length flat <= List.length ages * List.length cats.
Proof.
  exists (filter (dimension_test mode) base).
  split; [apply rows_Normal|]. cbv zeta.
  split; [apply bars_pairs|].
  split; [apply bars_length|].
  rewrite flatData_pairs.
  split; [apply nested_NoDup|].
  split; [intros age cat; apply nested_pairs | apply flatData_length_le].
Qed.

(** A pair without rows has no entry in [flatData], and its bar gets 0. *)
Lemma bar_of_absent_pair (rows : list row) (age cat : field) :
  (forall d, In d rows -> ~ (Strat1 d = age /\ Strat2 d = cat)) ->
  bar (flatData (nested rows)) age cat =
  {| Datum.AgeGroup := age; Datum.Category := cat; Datum.Value := Some zero |}.
Proof.
  intros Habs. unfold bar.
  destruct (find _ (flatData (nested rows))) as [d|] eqn:Hf; [|reflexivity].
  exfalso. apply find_some in Hf as [Hd Hk].
  apply andb_true_iff in Hk as [Ha Hc].
  apply strict_eq_true in Ha, Hc.
  apply (in_map pair_of) in Hd. rewrite flatData_pairs in Hd.
  unfold pair_of in Hd. rewrite Ha, Hc in Hd.
  apply nested_pairs in Hd as [r [Hr Hrc]]. exact (Habs r Hr Hrc).
Qed.

Lemma bars_In (flat : list Datum.t) (ages cats : list field) (age cat : field) :
  In age ages -> In cat cats ->
  exists ds, In (age, ds) (bars flat ages cats) /\ In (bar flat age cat) ds.
Proof.
  intros Ha Hc. exists (map (bar flat age) cats). split.
  - unfold bars. apply in_map_iff. now exists age.
  - now apply in_map.
Qed.

Lemma set_titles_data (label : string) (rs : list rect) :
  map rect_datum (fst (set_titles label rs)) = map rect_datum rs.
Proof.
  induction rs as [|r rs IH]; simpl; [reflexivity|].
  destruct (title_text label (rect_datum r)); [|reflexivity].
  destruct (set_titles label rs) as [rs' c]. simpl in *. now rewrite IH.
Qed.

Lemma set_group_titles_data (label : string) (gs : list (field * list rect)) :
  bound_data (fst (set_group_titles label gs)) = bound_data gs.
Proof.
  unfold bound_data. induction gs as [|[age rs] gs IH]; simpl; [reflexivity|].
  pose proof (set_titles_data label rs) as Hrs.
  destruct (set_titles label rs) as [rs' [u|e]]; simpl in *.
  - destruct (set_group_titles label gs) as [gs' c]. simpl in *.
    now rewrite Hrs, IH.
  - now rewrite Hrs.
Qed.

Lemma bound_data_join (groups : list (field * list Datum.t)) :
  bound_data
    (map (fun '(age, ds) =>
            (age, map (fun d => {| rect_datum := d; rect_title := None |}) ds))
         groups) = groups.
Proof.
  unfold bound_data. rewrite map_map.
  induction groups as [|[age ds] gs IH]; simpl; [reflexivity|].
  rewrite IH, map_map. simpl. now rewrite map_id.
Qed.

(** On a page with an SVG and a cached base set, a call draws the group of
    bars first, and the data bound to the bars is [bars] of the constants
    of the call, whether the call completes normally or not. *)
Lemma updateGroupedChart_draws_bars (mode : string) (w : window)
      (svg : list element) (base : list row) :
  __svg__ w = Some svg ->
  __baseData__ w = Some base ->
  exists groups rest,
    __svg__ (fst (updateGroupedChart mode w)) = Some (BarGroups groups :: rest) /\
    bound_data groups =
    let view := filter (dimension_test mode) base in
    bars (flatData (nested view)) (ageGroups (nested view)) (categories view).
Proof.
  intros Hsvg Hbase. unfold updateGroupedChart.
  rewrite Hsvg, Hbase, rows_Normal. cbv zeta.
  set (view := filter (dimension_test mode) base).
  match goal with
  | |- context [set_group_titles ?l ?gs] =>
      pose proof (set_group_titles_data l gs) as Hd;
      destruct (set_group_titles l gs) as [groups [u|e]]
  end; simpl in Hd; rewrite bound_data_join in Hd; simpl;
    eexists; eexists; (split; [reflexivity | exact Hd]).
Qed.

(** C6. On a page with an SVG and a cached base set, a call draws a bar for
    every age group of [ageGroups] and every category of [categories]; when
    no row of the dimension view has that age group and that category, the
    datum bound to the bar carries the Value 0, and the tooltip callback
    formats it without an exception.  The bar is there however the call
    completes. *)
Theorem absent_pair_bar_is_zero (mode : string) (w : window)
        (svg : list element) (base : list row) :
  __svg__ w = Some svg ->
  __baseData__ w = Some base ->
  exists view groups rest,
    rows mode base = Normal view /\
    __svg__ (fst (updateGroupedChart mode w)) = Some (BarGroups groups :: rest) /\
    forall age cat,
      In age (ageGroups (nested view)) ->
      In cat (categories view) ->
      (forall d, In d view -> ~ (Strat1 d = age /\ Strat2 d = cat)) ->
      exists rs r,
        In (age, rs) groups /\ In r rs /\
        rect_datum r = {| Datum.AgeGroup := age;
                          Datum.Category := cat;
                          Datum.Value := Some zero |} /\
        title_text (dimLabel mode) (rect_datum r)
          = Normal {| tip_AgeGroup := age;
                      tip_dimLabel := dimLabel mode;
                      tip_Category := cat;
                      tip_Value := zero |}.
Proof.
  intros Hsvg Hbase.
  destruct (updateGroupedChart_draws_bars mode w svg base Hsvg Hbase)
    as [groups [rest [Hdrawn Hdata]]].
  exists (filter (dimension_test mode) base), groups, rest.
  split; [apply rows_Normal|]. split; [exact Hdrawn|].
  intros age cat Hage Hcat Habs. cbv zeta in Hdata.
  destruct (bars_In (flatData (nested (filter (dimension_test mode) base)))
                    _ _ age cat Hage Hcat) as [ds [Hds Hbar]].
  rewrite <- Hdata in Hds. unfold bound_data in Hds.
  apply in_map_iff in Hds as [[age' rs] [[= -> <-] Hrs]].
  apply in_map_iff in Hbar as [r [Hr Hin]].
  exists rs, r. split; [exact Hrs|]. split; [exact Hin|].
  rewrite Hr, (bar_of_absent_pair _ age cat Habs). split; reflexivity.
Qed.

Lemma absent_pair_bar_is_zero_witness :
  exists view groups rest,
    rows "sex" (base (map row_accessor records_of_two_pairs)) = Normal view /\
    __svg__ (fst (updateGroupedChart "sex" page_of_two_pairs))
      = Some (BarGroups groups :: rest) /\
    forall age cat,
      In age (ageGroups (nested view)) ->
      In cat (categories view) ->
      (forall d, In d view -> ~ (Strat1 d = age /\ Strat2 d = cat)) ->
      exists rs r,
        In (age, rs) groups /\ In r rs /\
        rect_datum r = {| Datum.AgeGroup := age;
                          Datum.Category := cat;
                          Datum.Value := Some zero |} /\
        title_text (dimLabel "sex") (rect_datum r)
          = Normal {| tip_AgeGroup := age;
                      tip_dimLabel := dimLabel "sex";
                      tip_Category := cat;
                      tip_Value := zero |}.
Proof.
  apply (absent_pair_bar_is_zero "sex" page_of_two_pairs []
           (base (map row_accessor records_of_two_pairs)));
    reflexivity.
Defined.

(** ** The cached base set and the page *)

Lemma updateGroupedChart_baseData (mode : string) (w : window) :
  __baseData__ (fst (updateGroupedChart mode w)) = __baseData__ w.
Proof.
  unfold updateGroupedChart.
  destruct (__svg__ w); [|reflexivity].
  destruct (__baseData__ w) as [base|]; [|reflexivity].
  destruct (rows mode base); [|reflexivity].
  cbv zeta. destruct (set_group_titles _ _) as [groups [u|e]]; reflexivity.
Qed.

Lemma updateGroupedChart_svg (mode : string) (w : window) (svg : list element) :
  __svg__ w = Some svg ->
  exists svg', __svg__ (fst (updateGroupedChart mode w)) = Some svg'.
Proof.
  intros Hsvg. unfold updateGroupedChart. rewrite Hsvg.
  destruct (__baseData__ w) as [base|]; [|now eexists].
  destruct (rows mode base); [|now eexists].
  cbv zeta. destruct (set_group_titles _ _) as [groups [u|e]]; now eexists.
Qed.

(** A call reads the base set and whether there is an SVG, and nothing else
    of the page. *)
Lemma updateGroupedChart_reads (mode : string) (w w' : window)
      (svg svg' : list element) :
  __svg__ w = Some svg -> __svg__ w' = Some svg' ->
  __baseData__ w = __baseData__ w' ->
  updateGroupedChart mode w = updateGroupedChart mode w'.
Proof.
  intros H1 H2 Hb. unfold updateGroupedChart. now rewrite H1, H2, Hb.
Qed.

Lemma updateGroupedChart_computed (mode : string) (w : window)
      (svg : list element) (base : list row) :
  __svg__ w = Some svg ->
  __baseData__ w = Some base ->
  exists sc,
    computed (snd (updateGroupedChart mode w)) = Some sc /\
    scope_rows sc = filter (dimension_test mode) base /\
    scope_nested sc = nested (filter (dimension_test mode) base).
Proof.
  intros Hsvg Hbase. unfold updateGroupedChart.
  rewrite Hsvg, Hbase, rows_Normal. cbv zeta.
  destruct (set_group_titles _ _) as [groups [u|e]]; simpl;
    eexists; (split; [reflexivity|]); split; reflexivity.
Qed.

(** C8. On a page with an SVG and a cached base set, drawing the chart for
    one mode, then for another, then for the first again computes the same
    aggregate table the third time as the first time: the table of the
    dimension view of the cached base set for that mode.  All the other
    constants of the call and the page it leaves are the same too. *)
Theorem aggregate_table_after_switching_back (m1 m2 : string) (w : window)
        (svg : list element) (base : list row) :
  __svg__ w = Some svg ->
  __baseData__ w = Some base ->
  let first := updateGroupedChart m1 w in
  let second := updateGroupedChart m2 (fst first) in
  let third := updateGroupedChart m1 (fst second) in
  exists sc1 sc3,
    computed (snd first) = Some sc1 /\
    computed (snd third) = Some sc3 /\
    scope_nested sc3 = scope_nested sc1 /\
    scope_nested sc1 = nested (filter (dimension_test m1) base) /\
    third = first.
Proof.
  intros Hsvg Hbase first second third.
  destruct (updateGroupedChart_svg m1 w svg Hsvg) as [svg1 Hsvg1].
  destruct (updateGroupedChart_svg m2 (fst first) svg1 Hsvg1) as [svg2 Hsvg2].
  assert (Hb2 : __baseData__ (fst second) = __baseData__ w).
  { unfold second, first. now rewrite !updateGroupedChart_baseData. }
  assert (Heq : third = first).
  { unfold third. apply (updateGroupedChart_reads m1 _ _ svg2 svg);
      [exact Hsvg2 | exact Hsvg | exact Hb2]. }
  destruct (updateGroupedChart_computed m1 w svg base Hsvg Hbase)
    as [sc [Hsc [_ Hn]]].
  exists sc, sc. rewrite Heq. fold first in Hsc. now repeat split.
Qed.

Lemma aggregate_table_after_switching_back_witness :
  let first := updateGroupedChart "sex" page_of_two_pairs in
  let second := updateGroupedChart "ethnicity" (fst first) in
  let third := updateGroupedChart "sex" (fst second) in
  exists sc1 sc3,
    computed (snd first) = Some sc1 /\
    computed (snd third) = Some sc3 /\
    scope_nested sc3 = scope_nested sc1 /\
    scope_nested sc1 =
      nested (filter (dimension_test "sex")
                     (base (map row_accessor records_of_two_pairs))) /\
    third = first.
Proof.
  apply (aggregate_table_after_switching_back "sex" "ethnicity"
           page_of_two_pairs []
           (base (map row_accessor records_of_two_pairs)));
    reflexivity.
Defined.

Lemma load_page (records : list Csv.t) (w : window) :
  __baseData__ (fst (load records w)) = Some (base (map row_accessor records)) /\
  exists svg, __svg__ (fst (load records w)) = Some svg.
Proof.
  unfold load, loaded. split.
  - now rewrite updateGroupedChart_baseData.
  - now apply (updateGroupedChart_svg "sex" _ []).
Qed.

Lemma changes_page (values : list string) (w : window) (svg : list element) :
  __svg__ w = Some svg ->
  __baseData__ (fold_left (fun w value => change value w) values w)
    = __baseData__ w /\
  exists svg',
    __svg__ (fold_left (fun w value => change value w) values w) = Some svg'.
Proof.
  revert w svg. induction values as [|value values IH]; intros w svg Hsvg; simpl.
  - split; [reflexivity | now exists svg].
  - destruct (updateGroupedChart_svg value w svg Hsvg) as [svg1 Hsvg1].
    destruct (IH (change value w) svg1 Hsvg1) as [Hb Hs].
    split; [|exact Hs].
    rewrite Hb. apply updateGroupedChart_baseData.
Qed.

(** C9. After the load and any sequence of changes of the selector the
    cached base set is the one computed at load: [updateGroupedChart] reads
    it and never writes it.  Everything else is computed anew: a call after
    the changes does what the same call does right after the load. *)
Theorem base_set_unchanged_by_changes (records : list Csv.t)
        (values : list string) (w : window) :
  __baseData__ (session records values w)
    = Some (base (map row_accessor records)) /\
  (forall mode, __baseData__ (fst (updateGroupedChart mode (session records values w)))
                = __baseData__ (session records values w)) /\
  (forall mode, updateGroupedChart mode (session records values w)
                = updateGroupedChart mode (fst (load records w))).
Proof.
  destruct (load_page records w) as [Hb [svg Hsvg]].
  destruct (changes_page values (fst (load records w)) svg Hsvg)
    as [Hb' [svg' Hsvg']].
  unfold session.
  split; [now rewrite Hb', Hb|].
  split; [intros mode; apply updateGroupedChart_baseData|].
  intros mode.
  apply (updateGroupedChart_reads mode _ _ svg' svg);
    [exact Hsvg' | exact Hsvg | exact Hb'].
Qed.

(** ** Values that are no numbers *)

(** C5, as the claim states it, fails: a Data_Value that does not parse as
    a number becomes NaN, which is not null, and the row passes the filter. *)
Lemma unparseable_value_kept_counterexample :
  isNaN (ToNumber (Csv.Data_Value record_not_a_number)) = true /\
  Value (row_accessor record_not_a_number) = Some nan /\
  Value (row_accessor record_not_a_number) <> None /\
  In (row_accessor record_not_a_number)
     (base (map row_accessor [record_not_a_number])).
Proof.
  split; [vm_compute; reflexivity|].
  split; [vm_compute; reflexivity|].
  split; [vm_compute; discriminate|].
  vm_compute. left. reflexivity.
Qed.

Lemma row_accessor_Value_None (d : Csv.t) :
  Value (row_accessor d) = None <-> Csv.Data_Value d = Str "".
Proof.
  unfold row_accessor. cbn [Value].
  destruct (strict_eq_spec (Csv.Data_Value d) (Str "")) as [H|H];
    split; congruence.
Qed.

(** C5, amended. The Value of a row is null exactly when the Data_Value of
    its record is the empty string, and such a row is dropped by the filter
    stage; any other Data_Value is converted with unary plus, to NaN when it
    does not parse, and the row is kept when it passes the other three
    tests.  So every row of the filtered base set has a Value that is not
    null. *)
Theorem null_value_iff_empty_and_dropped (records : list Csv.t) (d : Csv.t) :
  (Value (row_accessor d) = None <-> Csv.Data_Value d = Str "") /\
  (Value (row_accessor d) <> None <->
   Value (row_accessor d) = Some (ToNumber (Csv.Data_Value d))) /\
  (In (row_accessor d) (base (map row_accessor records)) <->
   In (row_accessor d) (map row_accessor records) /\
   Csv.Class d = Str "Cognitive Decline" /\
   Csv.Topic d <> Str excluded_topic /\
   Csv.Stratification1 d <> Str "Overall" /\
   Csv.Data_Value d <> Str "") /\
  (forall r, In r (base (map row_accessor records)) -> Value r <> None).
Proof.
  split; [apply row_accessor_Value_None|].
  split.
  { unfold row_accessor. cbn [Value].
    destruct (strict_eq (Csv.Data_Value d) (Str "")); split; congruence. }
  split.
  - rewrite base_In, row_accessor_Value_None. reflexivity.
  - intros r Hr. now apply base_In in Hr.
Qed.


(** ** Worked examples *)

Example ToNumber_forms :
  map ToNumber [Str "1e3"; Str " 42 "; Str "0x1F"; Str ".5"; Str "-Infinity";
                Str "12abc"; Str "1e"; undefined; null]
  = [1000%float; 42%float; 31%float; 0.5%float; neg_infinity;
     nan; nan; nan; zero].
Proof. vm_compute. reflexivity. Qed.

Example mean_skips_NaN_and_null :
  d3.mean [Some 10%float; Some nan; None; Some 20%float] (fun v => v)
  = Some 15%float.
Proof. vm_compute. reflexivity. Qed.

Example mean_of_nothing : d3.mean [Some nan; None] (fun v => v) = None.
Proof. vm_compute. reflexivity. Qed.

(** The table, the axis domains and the flattened series of the two-pair
    file, and the four data bound to its bars. *)
Example two_pairs_pipeline :
  let view := filter (dimension_test "sex")
                     (base (map row_accessor records_of_two_pairs)) in
  nested view
    = [ (Str "50-64 years", [(Str "Male", Some 12.5%float)]);
        (Str "65 years or older", [(Str "Female", Some 10%float)]) ] /\
  ageGroups (nested view) = [Str "50-64 years"; Str "65 years or older"] /\
  categories view = [Str "Female"; Str "Male"] /\
  map Datum.Value (flatData (nested view)) = [Some 12.5%float; Some 10%float] /\
  map Datum.Value
      (bar_data (bars (flatData (nested view)) (ageGroups (nested view))
                      (categories view)))
    = [Some zero; Some 12.5%float; Some 10%float; Some zero].
Proof. vm_compute. repeat split; reflexivity. Qed.

(** When every Value of a pair is NaN its mean is undefined, and the call
    throws while formatting the tooltip of its bar; the bars have been drawn
    by then, the axes, the title and the legend have not. *)
Example load_with_NaN_group_throws :
  let w := {| __svg__ := None; __baseData__ := None |} in
  completed (snd (load [record_not_a_number] w)) = Throw TypeError /\
  exists groups, __svg__ (fst (load [record_not_a_number] w))
                 = Some [BarGroups groups].
Proof. vm_compute. split; [reflexivity | eexists; reflexivity]. Qed.

Example load_two_pairs_completes :
  let w := {| __svg__ := None; __baseData__ := None |} in
  completed (snd (load records_of_two_pairs w)) = Normal tt /\
  exists groups,
    __svg__ (fst (load records_of_two_pairs w))
    = Some [ BarGroups groups;
             AxisBottom [Str "50-64 years"; Str "65 years or older"];
             AxisLeft (Some 12.5%float);
             ChartTitle "Average reported percentage of cognitive decline by Age Group and Sex";
             Legend [Str "Female"; Str "Male"] ].
Proof. vm_compute. split; [reflexivity | eexists; reflexivity]. Qed.


(** * Further properties of the script *)

(** ** The bars and the aggregate table *)

Lemma flatData_In (t : AggregateTable) (d : Datum.t) :
  In d (flatData t) <->
  exists catMap,
    In (Datum.AgeGroup d, catMap) t /\
    In (Datum.Category d, Datum.Value d) catMap.
Proof.
  unfold flatData. rewrite in_flat_map. split.
  - intros [[age catMap] [Ht Hd]].
    apply in_map_iff in Hd as [[cat val] [<- Hc]]. now exists catMap.
  - intros [catMap [Ht Hc]]. exists (Datum.AgeGroup d, catMap).
    split; [exact Ht|]. apply in_map_iff.
    exists (Datum.Category d, Datum.Value d). split; [now destruct d | exact Hc].
Qed.

Lemma nested_inner_NoDup (rows : list row) (age : field)
      (catMap : InternMap.t (option float)) :
  In (age, catMap) (nested rows) -> NoDup (InternMap.keys catMap).
Proof.
  intros H. apply nested_entries in H as ->.
  rewrite keys_map_values. apply groups_of_spec.
Qed.

(** An entry of [flatData] is what the table holds for its pair. *)
Lemma flatData_lookup (rows : list row) (d : Datum.t) :
  In d (flatData (nested rows)) <->
  lookup (nested rows) (Datum.AgeGroup d) (Datum.Category d)
    = Some (Datum.Value d).
Proof.
  rewrite flatData_In. unfold lookup. split.
  - intros [catMap [Ht Hc]].
    assert (Hnd : NoDup (InternMap.keys (nested rows))).
    { rewrite nested_keys. apply groups_of_spec. }
    rewrite (In_get _ _ _ Hnd Ht).
    apply In_get; [|exact Hc]. now apply (nested_inner_NoDup rows _ _ Ht).
  - destruct (InternMap.get (Datum.AgeGroup d) (nested rows)) as [catMap|] eqn:Hg;
      [|discriminate].
    intros Hc. exists catMap. split; now apply get_Some_In.
Qed.

(** [find] and the look-up in the table agree. *)
Lemma bar_lookup (rows : list row) (age cat : field) :
  bar (flatData (nested rows)) age cat =
  {| Datum.AgeGroup := age;
     Datum.Category := cat;
     Datum.Value := match lookup (nested rows) age cat with
                    | Some v => v
                    | None => Some zero
                    end |}.
Proof.
  unfold bar.
  destruct (find _ (flatData (nested rows))) as [d|] eqn:Hf.
  - apply find_some in Hf as [Hd Hk].
    apply andb_true_iff in Hk as [Ha Hc].
    apply strict_eq_true in Ha, Hc. apply flatData_lookup in Hd.
    rewrite Ha, Hc in Hd. now rewrite Hd.
  - destruct (lookup (nested rows) age cat) as [v|] eqn:Hl; [|reflexivity].
    exfalso.
    assert (Hd : In {| Datum.AgeGroup := age; Datum.Category := cat;
                       Datum.Value := v |} (flatData (nested rows))).
    { apply flatData_lookup. exact Hl. }
    apply (find_none _ _ Hf) in Hd. simpl in Hd.
    now rewrite !strict_eq_refl in Hd.
Qed.

(** X1. The datum bound to the bar of an age group and a category carries
    the mean of the Values, NaN left out, of the rows of the dimension view
    with that Strat1 and that Strat2 (undefined when all are NaN), and 0
    when there is no such row. *)
Theorem bar_value (mode : string) (base : list row) :
  exists view,
    rows mode base = Normal view /\
    forall age cat,
      bar (flatData (nested view)) age cat =
      {| Datum.AgeGroup := age;
         Datum.Category := cat;
         Datum.Value := match matching age cat view with
                        | [] => Some zero
                        | _ :: _ => mean_of_numbers
                                      (map Value (matching age cat view))
                        end |}.
Proof.
  exists (filter (dimension_test mode) base). split; [apply rows_Normal|].
  intros age cat. rewrite bar_lookup, lookup_nested.
  destruct (matching age cat (filter (dimension_test mode) base)) as [|d g];
    simpl; [reflexivity|].
  now rewrite mean_mean_of_numbers.
Qed.

(** X2. Every entry of [flatData] is found again by the look-up of the
    bars: the bar of the entry's age group and category is bound to a datum
    equal to the entry. *)
Theorem flatData_entry_is_its_bar (mode : string) (base : list row) :
  exists view,
    rows mode base = Normal view /\
    forall d, In d (flatData (nested view)) <->
              In (Datum.AgeGroup d) (ageGroups (nested view)) /\
              In (Datum.Category d) (categories view) /\
              matching (Datum.AgeGroup d) (Datum.Category d) view <> [] /\
              bar (flatData (nested view)) (Datum.AgeGroup d) (Datum.Category d) = d.
Proof.
  exists (filter (dimension_test mode) base). split; [apply rows_Normal|].
  set (view := filter (dimension_test mode) base).
  intros d. split.
  - intros Hd.
    assert (Hp : In (Datum.AgeGroup d, Datum.Category d)
                    (pairs_of (nested view))).
    { rewrite <- flatData_pairs. apply (in_map pair_of) in Hd. exact Hd. }
    apply nested_pairs in Hp as [r [Hr [Ha Hc]]].
    split; [apply ageGroups_In; now exists r|].
    split; [apply categories_In; now exists r|].
    split.
    + intros Hm. assert (Hin : In r (matching (Datum.AgeGroup d) (Datum.Category d) view))
        by now apply matching_In.
      rewrite Hm in Hin. destruct Hin.
    + rewrite bar_lookup. apply flatData_lookup in Hd. rewrite Hd.
      now destruct d.
  - intros [_ [_ [Hm Hb]]]. apply flatData_lookup.
    rewrite bar_lookup in Hb. rewrite lookup_nested in *.
    destruct (matching (Datum.AgeGroup d) (Datum.Category d) view); [congruence|].
    simpl in *. apply (f_equal Datum.Value) in Hb. simpl in Hb.
    now rewrite Hb.
Qed.

(** ** How a call completes *)

Lemma set_titles_untitled (label : string) (ds : list Datum.t) :
  set_titles label (map untitled ds) =
  if forallb valued ds then (map (titled label) ds, Normal tt)
  else (fst (set_titles label (map untitled ds)), Throw TypeError).
Proof.
  induction ds as [|d ds IH]; simpl; [reflexivity|].
  unfold title_text, valued at 1, titled at 1. simpl.
  destruct (Datum.Value d) as [v|]; simpl; [|reflexivity].
  rewrite IH. destruct (forallb valued ds); simpl; reflexivity.
Qed.

Lemma set_group_titles_untitled (label : string)
      (gs : list (field * list Datum.t)) :
  set_group_titles label (map (fun '(age, ds) => (age, map untitled ds)) gs) =
  if forallb (fun g => forallb valued (snd g)) gs
  then (map (fun '(age, ds) => (age, map (titled label) ds)) gs, Normal tt)
  else (fst (set_group_titles label
               (map (fun '(age, ds) => (age, map untitled ds)) gs)),
        Throw TypeError).
Proof.
  induction gs as [|[age ds] gs IH]; simpl; [reflexivity|].
  rewrite set_titles_untitled.
  destruct (forallb valued ds); simpl; [|reflexivity].
  rewrite IH.
  destruct (forallb (fun g => forallb valued (snd g)) gs); simpl; reflexivity.
Qed.

Lemma bars_all_valued (flat : list Datum.t) (ages cats : list field) :
  forallb (fun g => forallb valued (snd g)) (bars flat ages cats) = true <->
  forall age cat, In age ages -> In cat cats -> valued (bar flat age cat) = true.
Proof.
  unfold bars. rewrite forallb_forall. split.
  - intros H age cat Ha Hc.
    specialize (H (age, map (bar flat age) cats)). simpl in H.
    rewrite forallb_forall in H. apply H.
    + apply in_map_iff. now exists age.
    + now apply in_map.
  - intros H [age ds] Hin. apply in_map_iff in Hin as [a [[= <- <-] Ha]]. simpl.
    apply forallb_forall. intros d Hd.
    apply in_map_iff in Hd as [c [<- Hc]]. now apply H.
Qed.

Lemma mean_of_numbers_None (vs : list (option float)) :
  mean_of_numbers vs = None <-> numeric vs = [].
Proof.
  unfold mean_of_numbers. destruct (numeric vs); split; congruence.
Qed.

Lemma bars_valued_iff (view : list row) :
  forallb (fun g => forallb valued (snd g))
          (bars (flatData (nested view)) (ageGroups (nested view))
                (categories view)) = true <->
  every_pair_has_a_number view.
Proof.
  rewrite bars_all_valued. unfold every_pair_has_a_number. split.
  - intros H age cat Hm Hn.
    destruct (matching age cat view) as [|r g] eqn:Hmatch; [congruence|].
    assert (Hr : In r (matching age cat view)) by (rewrite Hmatch; now left).
    apply matching_In in Hr as [Hr [Ha Hc]].
    assert (Hage : In age (ageGroups (nested view)))
      by (apply ageGroups_In; now exists r).
    assert (Hcat : In cat (categories view))
      by (apply categories_In; now exists r).
    specialize (H age cat Hage Hcat).
    rewrite bar_lookup, lookup_nested, Hmatch in H. unfold valued in H.
    simpl in H. rewrite mean_mean_of_numbers in H.
    apply mean_of_numbers_None in Hn. rewrite Hn in H. discriminate.
  - intros H age cat _ _. rewrite bar_lookup, lookup_nested.
    unfold valued. simpl.
    destruct (matching age cat view) as [|r g] eqn:Hmatch; [reflexivity|].
    simpl. rewrite mean_mean_of_numbers.
    destruct (mean_of_numbers (map Value (r :: g))) eqn:Hmean; [reflexivity|].
    apply mean_of_numbers_None in Hmean. exfalso.
    apply (H age cat); rewrite Hmatch; [discriminate | exact Hmean].
Qed.

(** What a call does on a page with an SVG and a cached base set, by
    whether every bar has a Value. *)
Lemma updateGroupedChart_cases (mode : string) (w : window)
      (svg : list element) (base : list row) :
  __svg__ w = Some svg ->
  __baseData__ w = Some base ->
  let view := filter (dimension_test mode) base in
  let flat := flatData (nested view) in
  let ages := ageGroups (nested view) in
  let cats := categories view in
  (forallb (fun g => forallb valued (snd g)) (bars flat ages cats) = true /\
   completed (snd (updateGroupedChart mode w)) = Normal tt /\
   __svg__ (fst (updateGroupedChart mode w)) =
     Some [ BarGroups (map (fun '(age, ds) => (age, map (titled (dimLabel mode)) ds))
                           (bars flat ages cats));
            AxisBottom ages;
            AxisLeft (d3.max flat Datum.Value);
            ChartTitle (chart_title mode);
            Legend cats ]) \/
  (forallb (fun g => forallb valued (snd g)) (bars flat ages cats) = false /\
   completed (snd (updateGroupedChart mode w)) = Throw TypeError /\
   exists groups,
     __svg__ (fst (updateGroupedChart mode w)) = Some [BarGroups groups] /\
     bound_data groups = bars flat ages cats).
Proof.
  intros Hsvg Hbase view flat ages cats.
  unfold updateGroupedChart. rewrite Hsvg, Hbase, rows_Normal. cbv zeta.
  fold view. fold flat. fold ages. fold cats.
  change (fun d : Datum.t => {| rect_datum := d; rect_title := None |})
    with untitled.
  pose proof (set_group_titles_data (dimLabel mode)
                (map (fun '(age, ds) => (age, map untitled ds))
                     (bars flat ages cats))) as Hdata.
  rewrite set_group_titles_untitled in *.
  destruct (forallb _ (bars flat ages cats)); [left | right]; simpl.
  - repeat split; reflexivity.
  - split; [reflexivity|]. split; [reflexivity|].
    eexists. split; [reflexivity|].
    simpl in Hdata. rewrite Hdata. apply bound_data_join.
Qed.

(** X3. On a page with an SVG and a cached base set, a call completes
    normally exactly when every pair of an age group and a category that
    has rows in the dimension view has a row whose Value is not NaN;
    otherwise it throws a TypeError, from [toFixed] on the undefined mean. *)
Theorem call_completes_iff (mode : string) (w : window)
        (svg : list element) (base : list row) :
  __svg__ w = Some svg ->
  __baseData__ w = Some base ->
  exists view,
    rows mode base = Normal view /\
    (completed (snd (updateGroupedChart mode w)) = Normal tt <->
     every_pair_has_a_number view) /\
    (completed (snd (updateGroupedChart mode w)) = Throw TypeError <->
     ~ every_pair_has_a_number view).
Proof.
  intros Hsvg Hbase.
  exists (filter (dimension_test mode) base). split; [apply rows_Normal|].
  pose proof (bars_valued_iff (filter (dimension_test mode) base)) as Hiff.
  destruct (updateGroupedChart_cases mode w svg base Hsvg Hbase)
    as [[Hall [Hc _]] | [Hall [Hc _]]]; cbv zeta in Hall; rewrite Hc.
  - apply Hiff in Hall. split; split; try tauto; discriminate.
  - assert (Hnot : ~ every_pair_has_a_number (filter (dimension_test mode) base)).
    { intros H. apply Hiff in H. congruence. }
    split; split; try tauto; discriminate.
Qed.

Lemma call_completes_iff_witness :
  exists view,
    rows "sex" (base (map row_accessor records_of_two_pairs)) = Normal view /\
    (completed (snd (updateGroupedChart "sex" page_of_two_pairs)) = Normal tt <->
     every_pair_has_a_number view) /\
    (completed (snd (updateGroupedChart "sex" page_of_two_pairs)) = Throw TypeError <->
     ~ every_pair_has_a_number view).
Proof.
  apply (call_completes_iff "sex" page_of_two_pairs []
           (base (map row_accessor records_of_two_pairs)));
    reflexivity.
Defined.

(** X4. When a call completes normally the SVG holds, in this order, the
    groups of bars, the bottom axis over the age groups, the left axis with
    the largest Value of [flatData] at the top of its domain, the title with
    the label of the mode, and the legend over the categories; every bar
    has a Value and a tooltip made of its age group, the label, its
    category and that Value. *)
Theorem page_after_normal_call (mode : string) (w : window)
        (svg : list element) (base : list row) :
  __svg__ w = Some svg ->
  __baseData__ w = Some base ->
  completed (snd (updateGroupedChart mode w)) = Normal tt ->
  exists view groups,
    rows mode base = Normal view /\
    __svg__ (fst (updateGroupedChart mode w)) =
      Some [ BarGroups groups;
             AxisBottom (ageGroups (nested view));
             AxisLeft (d3.max (flatData (nested view)) Datum.Value);
             ChartTitle (chart_title mode);
             Legend (categories view) ] /\
    bound_data groups =
      bars (flatData (nested view)) (ageGroups (nested view)) (categories view) /\
    forall age rs r,
      In (age, rs) groups -> In r rs ->
      exists v,
        Datum.Value (rect_datum r) = Some v /\
        rect_title r = Some {| tip_AgeGroup := Datum.AgeGroup (rect_datum r);
                               tip_dimLabel := dimLabel mode;
                               tip_Category := Datum.Category (rect_datum r);
                               tip_Value := v |}.
Proof.
  intros Hsvg Hbase Hnormal.
  destruct (updateGroupedChart_cases mode w svg base Hsvg Hbase)
    as [[Hall [_ Hpage]] | [_ [Hc _]]]; [|congruence].
  cbv zeta in Hall, Hpage.
  set (view := filter (dimension_test mode) base) in *.
  exists view. eexists. split; [apply rows_Normal|].
  split; [exact Hpage|]. split.
  - unfold bound_data. rewrite map_map.
    rewrite <- (map_id (bars _ _ _)) at 2. apply map_ext.
    intros [age ds]. f_equal. rewrite map_map. apply map_id.
  - intros age rs r Hg Hr.
    apply in_map_iff in Hg as [[age' ds] [[= <- <-] Hds]].
    apply in_map_iff in Hr as [d [<- Hd]].
    rewrite forallb_forall in Hall. specialize (Hall _ Hds). simpl in Hall.
    rewrite forallb_forall in Hall. specialize (Hall _ Hd).
    unfold valued in Hall. unfold titled. simpl.
    destruct (Datum.Value d) as [v|]; [|discriminate].
    now exists v.
Qed.

Lemma page_after_normal_call_witness :
  exists view groups,
    rows "sex" (base (map row_accessor records_of_two_pairs)) = Normal view /\
    __svg__ (fst (updateGroupedChart "sex" page_of_two_pairs)) =
      Some [ BarGroups groups;
             AxisBottom (ageGroups (nested view));
             AxisLeft (d3.max (flatData (nested view)) Datum.Value);
             ChartTitle (chart_title "sex");
             Legend (categories view) ] /\
    bound_data groups =
      bars (flatData (nested view)) (ageGroups (nested view)) (categories view) /\
    forall age rs r,
      In (age, rs) groups -> In r rs ->
      exists v,
        Datum.Value (rect_datum r) = Some v /\
        rect_title r = Some {| tip_AgeGroup := Datum.AgeGroup (rect_datum r);
                               tip_dimLabel := dimLabel "sex";
                               tip_Category := Datum.Category (rect_datum r);
                               tip_Value := v |}.
Proof.
  apply (page_after_normal_call "sex" page_of_two_pairs []
           (base (map row_accessor records_of_two_pairs)));
    reflexivity.
Defined.

(** X5. When a call throws, the exception is a TypeError, the SVG holds the
    groups of bars alone, with all the bars, and neither axes nor title nor
    legend; the cached base set is as before. *)
Theorem page_after_throwing_call (mode : string) (w : window)
        (svg : list element) (base : list row) (e : error) :
  __svg__ w = Some svg ->
  __baseData__ w = Some base ->
  completed (snd (updateGroupedChart mode w)) = Throw e ->
  e = TypeError /\
  __baseData__ (fst (updateGroupedChart mode w)) = Some base /\
  exists view groups,
    rows mode base = Normal view /\
    __svg__ (fst (updateGroupedChart mode w)) = Some [BarGroups groups] /\
    bound_data groups =
      bars (flatData (nested view)) (ageGroups (nested view)) (categories view).
Proof.
  intros Hsvg Hbase Hthrow.
  split; [now destruct e|].
  split; [now rewrite updateGroupedChart_baseData|].
  destruct (updateGroupedChart_cases mode w svg base Hsvg Hbase)
    as [[_ [Hc _]] | [_ [_ [groups [Hpage Hdata]]]]]; [congruence|].
  exists (filter (dimension_test mode) base), groups.
  split; [apply rows_Normal|]. now split.
Qed.

Lemma page_after_throwing_call_witness :
  TypeError = TypeError /\
  __baseData__ (fst (updateGroupedChart "sex" page_of_NaN))
    = Some (base (map row_accessor [record_not_a_number])) /\
  exists view groups,
    rows "sex" (base (map row_accessor [record_not_a_number])) = Normal view /\
    __svg__ (fst (updateGroupedChart "sex" page_of_NaN)) = Some [BarGroups groups] /\
    bound_data groups =
      bars (flatData (nested view)) (ageGroups (nested view)) (categories view).
Proof.
  apply (page_after_throwing_call "sex" page_of_NaN []
           (base (map row_accessor [record_not_a_number])) TypeError);
    reflexivity.
Defined.

(** ** The selector *)

(** X6. The mode is compared with "sex" exactly: every other value of the
    selector, whatever its spelling, draws the same chart, the one of the
    ethnicity branch. *)
Theorem other_modes_draw_the_same (m m' : string) (w : window) :
  m <> "sex" -> m' <> "sex" ->
  updateGroupedChart m w = updateGroupedChart m' w /\
  dimLabel m = "Ethnicity".
Proof.
  intros Hm Hm'. apply String.eqb_neq in Hm, Hm'.
  unfold updateGroupedChart, rows, chart_title, dimLabel.
  rewrite Hm, Hm'. split; reflexivity.
Qed.

Lemma other_modes_draw_the_same_witness :
  updateGroupedChart "ethnicity" page_of_two_pairs
    = updateGroupedChart "Sex" page_of_two_pairs /\
  dimLabel "ethnicity" = "Ethnicity".
Proof.
  apply (other_modes_draw_the_same "ethnicity" "Sex" page_of_two_pairs);
    discriminate.
Defined.

(** X7. No row is in the dimension view of both branches: a row of the
    sex view has the StratCat2 "Sex", which contains neither "Race" nor
    "Ethnic".  Both views are taken from the rows of the base set whose
    StratCat1 is "Age Group". *)
Theorem views_are_disjoint (mode : string) (base : list row) :
  mode <> "sex" ->
  exists sex_view other_view,
    rows "sex" base = Normal sex_view /\
    rows mode base = Normal other_view /\
    (forall d, In d sex_view -> ~ In d other_view) /\
    (forall d, In d sex_view \/ In d other_view -> In d (ageLayer base)).
Proof.
  intros Hm.
  exists (filter (dimension_test "sex") base), (filter (dimension_test mode) base).
  split; [apply rows_Normal|]. split; [apply rows_Normal|]. split.
  - intros d H1 H2.
    apply filter_In in H1 as [_ H1]. apply filter_In in H2 as [_ H2].
    apply dimension_test_true in H1 as [_ [[_ Hs] | [Hne _]]]; [|congruence].
    apply String.eqb_neq in Hm. unfold dimension_test in H2. rewrite Hm in H2.
    apply andb_true_iff in H2 as [_ H2].
    unfold ethnicity_test in H2. rewrite Hs in H2. vm_compute in H2.
    discriminate.
  - intros d [H|H]; apply filter_In in H as [Hb H];
      unfold dimension_test in H; apply andb_true_iff in H as [Ha _];
      unfold ageLayer; apply filter_In; now split.
Qed.

Lemma views_are_disjoint_witness :
  exists sex_view other_view,
    rows "sex" (base (map row_accessor records_of_two_pairs)) = Normal sex_view /\
    rows "ethnicity" (base (map row_accessor records_of_two_pairs))
      = Normal other_view /\
    (forall d, In d sex_view -> ~ In d other_view) /\
    (forall d, In d sex_view \/ In d other_view ->
               In d (ageLayer (base (map row_accessor records_of_two_pairs)))).
Proof.
  apply (views_are_disjoint "ethnicity"
           (base (map row_accessor records_of_two_pairs))).
  discriminate.
Defined.

(** ** Empty views *)

(** X8. When no row of the base set enters the dimension view, a call
    completes normally and draws an empty chart: no bar, axes over empty
    domains (the top of the value domain is undefined), the title, and an
    empty legend. *)
Theorem empty_view_draws_empty_chart (mode : string) (w : window)
        (svg : list element) (base : list row) :
  __svg__ w = Some svg ->
  __baseData__ w = Some base ->
  rows mode base = Normal [] ->
  updateGroupedChart mode w =
  ({| __svg__ := Some [ BarGroups []; AxisBottom []; AxisLeft None;
                        ChartTitle (chart_title mode); Legend [] ];
      __baseData__ := Some base |},
   {| computed := Some {| scope_rows := [];
                          scope_nested := [];
                          scope_ageGroups := [];
                          scope_categories := [];
                          scope_flatData := [] |};
      completed := Normal tt |}).
Proof.
  intros Hsvg Hbase Hrows. unfold updateGroupedChart.
  rewrite Hsvg, Hbase, Hrows. reflexivity.
Qed.

Lemma empty_view_draws_empty_chart_witness :
  updateGroupedChart "sex" page_without_rows =
  ({| __svg__ := Some [ BarGroups []; AxisBottom []; AxisLeft None;
                        ChartTitle (chart_title "sex"); Legend [] ];
      __baseData__ := Some [] |},
   {| computed := Some {| scope_rows := [];
                          scope_nested := [];
                          scope_ageGroups := [];
                          scope_categories := [];
                          scope_flatData := [] |};
      completed := Normal tt |}).
Proof.
  apply (empty_view_draws_empty_chart "sex" page_without_rows [] []);
    reflexivity.
Defined.

(** ** What the filter stage keeps off the chart *)

(** X9. Whatever the file and the mode, no age group of the chart is
    "Overall", and every row that is averaged has the class "Cognitive
    Decline", a topic other than the excluded one, the StratCat1
    "Age Group" and a Value that is not null. *)
Theorem chart_rows_are_filtered (records : list Csv.t) (mode : string) :
  exists view,
    rows mode (base (map row_accessor records)) = Normal view /\
    ~ In (Str "Overall") (ageGroups (nested view)) /\
    forall d, In d view ->
              Class d = Str "Cognitive Decline" /\
              Topic d <> Str excluded_topic /\
              StratCat1 d = Str "Age Group" /\
              Value d <> None.
Proof.
  exists (filter (dimension_test mode) (base (map row_accessor records))).
  split; [apply rows_Normal|].
  assert (Hrow : forall d,
             In d (filter (dimension_test mode) (base (map row_accessor records))) ->
             Class d = Str "Cognitive Decline" /\
             Topic d <> Str excluded_topic /\
             Strat1 d <> Str "Overall" /\
             StratCat1 d = Str "Age Group" /\
             Value d <> None).
  { intros d Hd. apply filter_In in Hd as [Hb Ht].
    apply base_In in Hb as [_ [Hc [Htopic [Hs Hv]]]].
    apply dimension_test_true in Ht as [Ha _]. tauto. }
  split.
  - intros Hin. apply ageGroups_In in Hin as [d [Hd Hs]].
    apply Hrow in Hd. tauto.
  - intros d Hd. apply Hrow in Hd. tauto.
Qed.

(** ** Sessions *)

(** X10. The page a session ends with depends on the file and on the last
    value of the selector alone ("sex" when it was never changed): it is
    the page one call for that value leaves on the fresh page.  Neither the
    page before the load nor the earlier values leave a trace. *)
Theorem session_page (records : list Csv.t) (values : list string) (w : window) :
  session records values w =
  fst (updateGroupedChart (last values "sex") (fresh_page records)).
Proof.
  induction values as [|value values IH] using rev_ind.
  - reflexivity.
  - unfold session in *. rewrite fold_left_app. simpl. rewrite last_last.
    unfold change at 1. f_equal.
    destruct (load_page records w) as [Hb [svg Hsvg]].
    destruct (changes_page values (fst (load records w)) svg Hsvg)
      as [Hb' [svg' Hsvg']].
    apply (updateGroupedChart_reads value _ _ svg' []);
      [exact Hsvg' | reflexivity |].
    rewrite Hb', Hb. reflexivity.
Qed.

(** ** The order of the table *)

Lemma new_Set_snoc (values : list field) (x : field) :
  new_Set (values ++ [x]) = Set_add (new_Set values) x.
Proof. unfold new_Set. now rewrite fold_left_app. Qed.

(** The keys of the groups are the distinct keys of the values, in order
    of first occurrence. *)
Lemma groups_of_keys_order {A : Type} (keyof : A -> field) (vs : list A) :
  InternMap.keys (d3.groups_of keyof vs) = new_Set (map keyof vs).
Proof.
  induction vs as [|v vs IH] using rev_ind; [reflexivity|].
  rewrite groups_of_snoc, map_app. cbn [map]. rewrite new_Set_snoc, <- IH.
  unfold d3.add_value, Set_add.
  destruct (InternMap.get (keyof v) (d3.groups_of keyof vs)) as [g|] eqn:Hg.
  - rewrite (keys_set_present _ _ _ _ Hg).
    assert (Hin : In (keyof v) (InternMap.keys (d3.groups_of keyof vs))).
    { apply get_Some_In in Hg. apply (in_map fst) in Hg. exact Hg. }
    apply existsb_strict_eq in Hin. now rewrite Hin.
  - rewrite (set_absent _ _ _ Hg).
    assert (Hout : existsb (strict_eq (keyof v))
                           (InternMap.keys (d3.groups_of keyof vs)) = false).
    { apply not_true_is_false. intros H. apply existsb_strict_eq in H.
      revert H. now apply get_None. }
    rewrite Hout. unfold InternMap.keys. now rewrite map_app.
Qed.

(** X11. The table lists the age groups in the order in which they first
    occur in the dimension view, and under each age group its categories in
    the order in which they first occur among the rows of that age group.
    So [ageGroups], taken from the keys of the table, is the array that the
    computation used for [categories], a sorted Set of the column, gives
    for Strat1. *)
Theorem table_order (mode : string) (base : list row) :
  exists view,
    rows mode base = Normal view /\
    InternMap.keys (nested view) = new_Set (map Strat1 view) /\
    (forall age catMap,
        In (age, catMap) (nested view) ->
        InternMap.keys catMap = new_Set (map Strat2 (keyed Strat1 age view))) /\
    ageGroups (nested view) = sort (new_Set (map Strat1 view)).
Proof.
  exists (filter (dimension_test mode) base). split; [apply rows_Normal|].
  split; [|split].
  - rewrite nested_keys. apply groups_of_keys_order.
  - intros age catMap H. apply nested_entries in H as ->.
    rewrite keys_map_values. apply groups_of_keys_order.
  - unfold ageGroups. rewrite nested_keys. now rewrite groups_of_keys_order.
Qed.

(** ** Blank values *)

Lemma trim_start_blank (s : string) :
  blank s = true -> StringToNumber.trim_start s = "".
Proof.
  induction s as [|c s IH]; simpl; [reflexivity|].
  intros H. apply andb_true_iff in H as [Hc Hs]. rewrite Hc. now apply IH.
Qed.

Lemma StringToNumber_blank (s : string) :
  blank s = true -> StringToNumber.StringToNumber s = zero.
Proof.
  intros H. unfold StringToNumber.StringToNumber, StringToNumber.trim.
  now rewrite (trim_start_blank s H).
Qed.

(** X12. A Data_Value that is not empty but consists of white space only
    becomes the number 0, not null: the row passes the test of the Value and
    enters the mean as 0. *)
Theorem blank_value_is_zero (records : list Csv.t) (d : Csv.t) (s : string) :
  Csv.Data_Value d = Str s ->
  s <> "" ->
  blank s = true ->
  Value (row_accessor d) = Some zero /\
  (In (row_accessor d) (base (map row_accessor records)) <->
   In (row_accessor d) (map row_accessor records) /\
   Csv.Class d = Str "Cognitive Decline" /\
   Csv.Topic d <> Str excluded_topic /\
   Csv.Stratification1 d <> Str "Overall").
Proof.
  intros Hd Hne Hblank.
  assert (Hv : Value (row_accessor d) = Some zero).
  { unfold row_accessor. cbn [Value]. rewrite Hd.
    destruct (strict_eq_spec (Str s) (Str "")) as [[= H]|_]; [contradiction|].
    simpl. now rewrite (StringToNumber_blank s Hblank). }
  split; [exact Hv|].
  rewrite base_In, Hv. cbn [row_accessor Class Topic Strat1].
  intuition congruence.
Qed.

Lemma blank_value_is_zero_witness :
  Value (row_accessor record_with_a_space) = Some zero /\
  (In (row_accessor record_with_a_space)
      (base (map row_accessor [record_with_a_space])) <->
   In (row_accessor record_with_a_space)
      (map row_accessor [record_with_a_space]) /\
   Csv.Class record_with_a_space = Str "Cognitive Decline" /\
   Csv.Topic record_with_a_space <> Str excluded_topic /\
   Csv.Stratification1 record_with_a_space <> Str "Overall").
Proof.
  apply (blank_value_is_zero [record_with_a_space] record_with_a_space " ");
    [reflexivity | discriminate | reflexivity].
Defined.

(** ** The order of the records *)

Lemma sort_le_antisym (x y : field) :
  x <> null -> y <> null -> sort_le x y -> sort_le y x -> x = y.
Proof.
  unfold sort_le. intros Hx Hy Hxy Hyx.
  rewrite SortCompare_antisym in Hyx.
  destruct (SortCompare x y) eqn:Hc; try (simpl in Hyx; congruence).
  destruct x as [| |a], y as [| |b]; try congruence;
    cbv beta iota delta [SortCompare] in Hc; try discriminate.
  simpl in Hc. apply String.compare_eq_iff in Hc. now subst.
Qed.

(** Two sorted arrays without duplicates and without null that have the
    same elements are equal. *)
Lemma sorted_unique (l1 l2 : list field) :
  StronglySorted sort_le l1 -> StronglySorted sort_le l2 ->
  NoDup l1 -> NoDup l2 ->
  (forall x, In x l1 <-> In x l2) ->
  (forall x, In x l1 -> x <> null) ->
  l1 = l2.
Proof.
  revert l2. induction l1 as [|a l1 IH]; intros l2 Hs1 Hs2 Hn1 Hn2 Hin Hnull.
  - destruct l2 as [|b l2]; [reflexivity|].
    exfalso. apply (Hin b). now left.
  - destruct l2 as [|b l2].
    + exfalso. apply (Hin a). now left.
    + apply StronglySorted_inv in Hs1 as [Hs1 Ha].
      apply StronglySorted_inv in Hs2 as [Hs2 Hb].
      rewrite Forall_forall in Ha, Hb.
      inversion Hn1 as [|? ? Ha1 Hn1']; subst.
      inversion Hn2 as [|? ? Hb2 Hn2']; subst.
      assert (Hab : a = b).
      { assert (H1 : In a (b :: l2)) by (apply Hin; now left).
        assert (H2 : In b (a :: l1)) by (apply Hin; now left).
        destruct H1 as [H1|H1]; [now subst|].
        destruct H2 as [H2|H2]; [now subst|].
        apply sort_le_antisym.
        - apply Hnull. now left.
        - apply Hnull. now right.
        - now apply Ha.
        - now apply Hb. }
      subst b. f_equal. apply IH; try assumption.
      * intros x. split; intros Hx.
        -- assert (H : In x (a :: l2)) by (apply Hin; now right).
           destruct H as [<-|H]; [contradiction | exact H].
        -- assert (H : In x (a :: l1)) by (apply Hin; now right).
           destruct H as [<-|H]; [contradiction | exact H].
      * intros x Hx. apply Hnull. now right.
Qed.

(** X13. The two axis domains do not depend on the order of the rows of
    the base set: base sets that are permutations of each other, with no
    null Strat1 or Strat2, give the same age groups and the same
    categories. *)
Theorem axis_domains_ignore_row_order (mode : string) (base base' : list row) :
  Permutation base base' ->
  (forall d, In d base -> Strat1 d <> null /\ Strat2 d <> null) ->
  exists view view',
    rows mode base = Normal view /\
    rows mode base' = Normal view' /\
    ageGroups (nested view) = ageGroups (nested view') /\
    categories view = categories view'.
Proof.
  intros Hperm Hnull.
  exists (filter (dimension_test mode) base), (filter (dimension_test mode) base').
  split; [apply rows_Normal|]. split; [apply rows_Normal|].
  assert (Hview : forall d, In d (filter (dimension_test mode) base) <->
                            In d (filter (dimension_test mode) base')).
  { intros d. rewrite !filter_In. split; intros [Hd Ht]; split; try exact Ht.
    - now apply (Permutation_in _ Hperm).
    - now apply (Permutation_in _ (Permutation_sym Hperm)). }
  split.
  - apply sorted_unique; try apply sort_StronglySorted; try apply ageGroups_NoDup.
    + intros a. rewrite !ageGroups_In.
      split; intros [d [Hd Hs]]; exists d; split; try exact Hs; now apply Hview.
    + intros a Ha. apply ageGroups_In in Ha as [d [Hd <-]].
      apply filter_In in Hd as [Hd _]. now apply Hnull.
  - apply sorted_unique; try apply sort_StronglySorted; try apply categories_NoDup.
    + intros c. rewrite !categories_In.
      split; intros [d [Hd Hs]]; exists d; split; try exact Hs; now apply Hview.
    + intros c Hc. apply categories_In in Hc as [d [Hd <-]].
      apply filter_In in Hd as [Hd _]. now apply Hnull.
Qed.

Lemma axis_domains_ignore_row_order_witness :
  exists view view',
    rows "sex" (base (map row_accessor records_of_two_pairs)) = Normal view /\
    rows "sex" (rev (base (map row_accessor records_of_two_pairs))) = Normal view' /\
    ageGroups (nested view) = ageGroups (nested view') /\
    categories view = categories view'.
Proof.
  apply (axis_domains_ignore_row_order "sex"
           (base (map row_accessor records_of_two_pairs))
           (rev (base (map row_accessor records_of_two_pairs)))).
  - apply Permutation_rev.
  - vm_compute. intros d [<- | [<- | []]]; split; discriminate.
Defined.

(** ** The order of numbers *)

Ltac split_compare :=
  repeat match goal with
         | H : context [Z.compare ?a ?b] |- _ => destruct (Z.compare_spec a b)
         | |- context [Z.compare ?a ?b] => destruct (Z.compare_spec a b)
         | H : context [Pos.compare_cont Eq ?a ?b] |- _ =>
             change (Pos.compare_cont Eq a b) with (Pos.compare a b) in *;
             destruct (Pos.compare_spec a b)
         | |- context [Pos.compare_cont Eq ?a ?b] =>
             change (Pos.compare_cont Eq a b) with (Pos.compare a b) in *;
             destruct (Pos.compare_spec a b)
         end.

Lemma SFleb_refl (x : spec_float) : x <> S754_nan -> SFleb x x = true.
Proof.
  unfold SFleb. destruct x as [s|s| |s m e]; simpl; try congruence;
    destruct s; try reflexivity;
    rewrite Z.compare_refl;
    change (Pos.compare_cont Eq m m) with (Pos.compare m m);
    now rewrite Pos.compare_refl.
Qed.

Lemma SFltb_not_nan (x y : spec_float) : SFltb x y = true -> y <> S754_nan.
Proof.
  unfold SFltb. intros H ->. destruct x; discriminate.
Qed.

Lemma SFltb_SFleb (x y : spec_float) : SFltb x y = true -> SFleb x y = true.
Proof.
  unfold SFltb, SFleb. destruct (SFcompare x y) as [[]|]; congruence.
Qed.

Lemma SFleb_total (x y : spec_float) :
  x <> S754_nan -> y <> S754_nan -> SFltb x y = false -> SFleb y x = true.
Proof.
  unfold SFltb, SFleb.
  destruct x as [sx|sx| |sx mx ex], y as [sy|sy| |sy my ey]; simpl;
    try congruence; intros _ _;
    try destruct sx; try destruct sy; simpl; try congruence;
    split_compare; simpl; try congruence; try lia.
Qed.

Lemma SFleb_trans (x y z : spec_float) :
  SFleb x y = true -> SFleb y z = true -> SFleb x z = true.
Proof.
  unfold SFleb.
  destruct x as [sx|sx| |sx mx ex], y as [sy|sy| |sy my ey],
           z as [sz|sz| |sz mz ez]; simpl; try congruence;
    try destruct sx; try destruct sy; try destruct sz; simpl; try congruence;
    split_compare; simpl; try congruence; try lia.
Qed.

Lemma leb_refl_iff (x : float) : (x <=? x)%float = true <-> Prim2SF x <> S754_nan.
Proof.
  rewrite leb_spec. split.
  - intros H Hn. rewrite Hn in H. discriminate.
  - apply SFleb_refl.
Qed.

Lemma ltb_leb_refl (m v : float) :
  (m <? v)%float = true -> (v <=? v)%float = true /\ (m <=? v)%float = true.
Proof.
  rewrite ltb_spec, !leb_spec. intros H. split.
  - apply SFleb_refl. now apply (SFltb_not_nan (Prim2SF m)).
  - now apply SFltb_SFleb.
Qed.

Lemma not_ltb_leb (m v : float) :
  (m <=? m)%float = true -> (v <=? v)%float = true ->
  (m <? v)%float = false -> (v <=? m)%float = true.
Proof.
  rewrite !leb_refl_iff, ltb_spec, leb_spec. apply SFleb_total.
Qed.

Lemma leb_trans (x y z : float) :
  (x <=? y)%float = true -> (y <=? z)%float = true -> (x <=? z)%float = true.
Proof. rewrite !leb_spec. apply SFleb_trans. Qed.

(** ** The top of the value axis *)

Lemma max_snoc {A : Type} (values : list A) (valueof : A -> option float) (a : A) :
  d3.max (values ++ [a]) valueof =
  d3.max_step valueof (d3.max values valueof) a.
Proof. unfold d3.max. now rewrite fold_left_app. Qed.

(** [d3.max] is undefined when no value is a number other than NaN;
    otherwise it is one of the values, not NaN, and no number among the
    values is larger. *)
Lemma max_spec {A : Type} (values : list A) (valueof : A -> option float) :
  match d3.max values valueof with
  | None =>
      forall a v, In a values -> valueof a = Some v -> isNaN v = true
  | Some m =>
      isNaN m = false /\
      (exists a, In a values /\ valueof a = Some m) /\
      forall a v, In a values -> valueof a = Some v -> isNaN v = false ->
                  (v <=? m)%float = true
  end.
Proof.
  unfold isNaN.
  induction values as [|a values IH] using rev_ind.
  - simpl. intros a v [].
  - rewrite max_snoc. unfold d3.max_step.
    destruct (d3.max values valueof) as [m|].
    + destruct IH as [Hm [[b [Hb Hbm]] Hle]].
      apply negb_false_iff in Hm.
      destruct (valueof a) as [v|] eqn:Hv.
      * destruct (m <? v)%float eqn:Hlt.
        -- apply ltb_leb_refl in Hlt as [Hvv Hmv].
           split; [now rewrite Hvv|].
           split; [exists a; split; [apply in_or_app; right; now left | exact Hv]|].
           intros c u Hc Hu Hnan. apply in_app_or in Hc as [Hc|[<-|[]]].
           ++ apply (leb_trans u m v); [now apply (Hle c) | exact Hmv].
           ++ congruence.
        -- split; [now rewrite Hm|].
           split; [exists b; split; [apply in_or_app; now left | exact Hbm]|].
           intros c u Hc Hu Hnan. apply in_app_or in Hc as [Hc|[<-|[]]].
           ++ now apply (Hle c).
           ++ assert (u = v) by congruence. subst u.
              apply negb_false_iff in Hnan. now apply not_ltb_leb.
      * split; [now rewrite Hm|].
        split; [exists b; split; [apply in_or_app; now left | exact Hbm]|].
        intros c u Hc Hu Hnan. apply in_app_or in Hc as [Hc|[<-|[]]].
        -- now apply (Hle c).
        -- congruence.
    + destruct (valueof a) as [v|] eqn:Hv.
      * destruct (v <=? v)%float eqn:Hvv.
        -- split; [now rewrite Hvv|].
           split; [exists a; split; [apply in_or_app; right; now left | exact Hv]|].
           intros c u Hc Hu Hnan. apply in_app_or in Hc as [Hc|[<-|[]]].
           ++ rewrite (IH c u Hc Hu) in Hnan. discriminate.
           ++ assert (u = v) by congruence. now subst u.
        -- intros c u Hc Hu. apply in_app_or in Hc as [Hc|[<-|[]]].
           ++ now apply (IH c).
           ++ assert (u = v) by congruence. subst u. now rewrite Hvv.
      * intros c u Hc Hu. apply in_app_or in Hc as [Hc|[<-|[]]].
        -- now apply (IH c).
        -- congruence.
Qed.

(** X14. The upper end that the script gives to the domain of the value
    scale, before [nice], is undefined when no entry of [flatData] has a
    Value that is a number other than NaN; otherwise it is the Value of one
    of the entries, it is not NaN, and the Value of every entry that is not
    NaN is at most as large. *)
Theorem value_axis_top (mode : string) (base : list row) :
  exists view,
    rows mode base = Normal view /\
    match d3.max (flatData (nested view)) Datum.Value with
    | None =>
        forall d v, In d (flatData (nested view)) ->
                    Datum.Value d = Some v -> isNaN v = true
    | Some top =>
        isNaN top = false /\
        (exists d, In d (flatData (nested view)) /\ Datum.Value d = Some top) /\
        forall d v, In d (flatData (nested view)) ->
                    Datum.Value d = Some v -> isNaN v = false ->
                    (v <=? top)%float = true
    end.
Proof.
  exists (filter (dimension_test mode) base). split; [apply rows_Normal|].
  apply max_spec.
Qed.

(** ** The colours *)

Lemma set_domain_snoc (values : list field) (x : field) (s : Ordinal.t) :
  Ordinal.set_domain (values ++ [x]) s =
  match InternMap.get x (Ordinal.index (Ordinal.set_domain values s)) with
  | Some _ => Ordinal.set_domain values s
  | None => Ordinal.push x (Ordinal.set_domain values s)
  end.
Proof. unfold Ordinal.set_domain. now rewrite fold_left_app. Qed.

(** After [scale.domain(l)], for [l] without duplicates, the index holds
    the position of every value of [l]. *)
Lemma set_domain_spec (l : list field) (s : Ordinal.t) :
  NoDup l ->
  InternMap.keys (Ordinal.index (Ordinal.set_domain l s)) = l /\
  Ordinal.domain (Ordinal.set_domain l s) = l /\
  Ordinal.range (Ordinal.set_domain l s) = Ordinal.range s /\
  forall i c, nth_error l i = Some c ->
              InternMap.get c (Ordinal.index (Ordinal.set_domain l s)) = Some i.
Proof.
  induction l as [|x l IH] using rev_ind; intros Hnd.
  - repeat split; try reflexivity. intros [|i] c; discriminate.
  - assert (Hnd' : NoDup (x :: l)).
    { apply (Permutation_NoDup (l := l ++ [x])); [|exact Hnd].
      symmetry. apply Permutation_cons_append. }
    inversion Hnd' as [|? ? Hx Hl]; subst.
    destruct (IH Hl) as [Hkeys [Hdom [Hrange Hget]]].
    rewrite set_domain_snoc.
    assert (Hnone : InternMap.get x (Ordinal.index (Ordinal.set_domain l s)) = None).
    { apply get_None. now rewrite Hkeys. }
    rewrite Hnone. unfold Ordinal.push. simpl.
    rewrite (set_absent _ _ _ Hnone), Hdom.
    split; [unfold InternMap.keys in *; rewrite map_app, Hkeys; reflexivity|].
    split; [reflexivity|]. split; [exact Hrange|].
    intros i c Hi.
    rewrite <- (set_absent _ _ _ Hnone).
    destruct (Nat.lt_ge_cases i (List.length l)) as [Hlt|Hge].
    + rewrite nth_error_app1 in Hi by exact Hlt.
      rewrite get_set_other; [now apply Hget|].
      intros <-. apply Hx. now apply (nth_error_In l i).
    + rewrite nth_error_app2 in Hi by exact Hge.
      destruct (i - List.length l) as [|k] eqn:Hk; simpl in Hi.
      * injection Hi as <-. rewrite get_set_same. f_equal. lia.
      * destruct k; discriminate.
Qed.

Lemma color_spec (palette : list string) (cats : list field) :
  NoDup cats ->
  Ordinal.range (color palette cats) = palette /\
  forall i c, nth_error cats i = Some c ->
              InternMap.get c (Ordinal.index (color palette cats)) = Some i.
Proof.
  intros Hnd. unfold color, Ordinal.set_range. simpl.
  split; [reflexivity|]. now apply set_domain_spec.
Qed.

Lemma fill_of_position (palette : list string) (cats : list field)
      (i : nat) (c : field) :
  NoDup cats -> nth_error cats i = Some c ->
  Ordinal.scale (color palette cats) c =
    (color palette cats, nth_error palette (i mod List.length palette)) /\
  fill_of palette cats c = nth_error palette (i mod List.length palette).
Proof.
  intros Hnd Hi. destruct (color_spec palette cats Hnd) as [Hrange Hget].
  unfold fill_of, Ordinal.scale. rewrite (Hget i c Hi), Hrange. now split.
Qed.

(** Calls on values of the domain leave the scale as it is. *)
Lemma fills_members (palette : list string) (cats cs : list field) :
  NoDup cats -> incl cs cats ->
  fills (color palette cats) cs =
  (color palette cats, map (fill_of palette cats) cs).
Proof.
  intros Hnd. induction cs as [|c cs IH]; intros Hincl; simpl; [reflexivity|].
  assert (Hc : In c cats) by (apply Hincl; now left).
  apply In_nth_error in Hc as [i Hi].
  destruct (fill_of_position palette cats i c Hnd Hi) as [Hscale Hfill].
  rewrite Hscale, IH, Hfill; [reflexivity|].
  intros x Hx. apply Hincl. now right.
Qed.

Lemma bars_categories (flat : list Datum.t) (ages cats : list field) :
  map Datum.Category (List.concat (map snd (bars flat ages cats))) =
  List.concat (map (fun _ => cats) ages).
Proof.
  unfold bars. induction ages as [|age ages IH]; simpl; [reflexivity|].
  rewrite map_app, IH. f_equal. rewrite map_map. simpl. apply map_id.
Qed.

Lemma map_concat_const {A B : Type} (f : A -> B) (l : list A) (ages : list field) :
  map f (List.concat (map (fun _ => l) ages)) =
  List.concat (map (fun _ => map f l) ages).
Proof.
  induction ages as [|age ages IH]; simpl; [reflexivity|].
  now rewrite map_app, IH.
Qed.

(** X15. Every bar has the fill of the legend swatch of its category: in
    each age group the fills of the bars are, in order, the fills of the
    legend, and the calls of the scale never extend its domain.  The
    category at position [i] of the sorted categories gets the colour at
    position [i] modulo the length of the palette. *)
Theorem bars_and_legend_share_fills (palette : list string) (rows : list row)
        (flat : list Datum.t) (ages : list field) :
  chart_fills palette flat ages (categories rows) =
    (List.concat (map (fun _ => map (fill_of palette (categories rows))
                                    (categories rows)) ages),
     map (fill_of palette (categories rows)) (categories rows)) /\
  forall i c,
    nth_error (categories rows) i = Some c ->
    fill_of palette (categories rows) c
      = nth_error palette (i mod List.length palette).
Proof.
  pose proof (categories_NoDup rows) as Hnd. split.
  - unfold chart_fills. rewrite bars_categories.
    rewrite (fills_members palette _ _ Hnd).
    + rewrite (fills_members palette _ _ Hnd (incl_refl _)).
      now rewrite map_concat_const.
    + intros c Hc. apply in_concat in Hc as [l [Hl Hc]].
      apply in_map_iff in Hl as [age [<- _]]. exact Hc.
  - intros i c Hi. now apply fill_of_position.
Qed.

Lemma schemeSet2_NoDup : NoDup schemeSet2.
Proof.
  unfold schemeSet2.
  repeat (constructor; [simpl; intuition discriminate|]). constructor.
Qed.

(** X16. When the palette has no colour twice and there are at most as
    many categories as colours, every category has a colour and different
    categories have different colours. *)
Theorem fills_are_distinct (palette : list string) (rows : list row)
        (c1 c2 : field) :
  NoDup palette ->
  List.length (categories rows) <= List.length palette ->
  In c1 (categories rows) -> In c2 (categories rows) ->
  fill_of palette (categories rows) c1 <> None /\
  (fill_of palette (categories rows) c1 = fill_of palette (categories rows) c2 ->
   c1 = c2).
Proof.
  intros Hpal Hlen H1 H2.
  pose proof (categories_NoDup rows) as Hnd.
  apply In_nth_error in H1 as [i1 Hi1]. apply In_nth_error in H2 as [i2 Hi2].
  assert (Hlt1 : i1 < List.length (categories rows))
    by (apply nth_error_Some; congruence).
  assert (Hlt2 : i2 < List.length (categories rows))
    by (apply nth_error_Some; congruence).
  destruct (fill_of_position palette _ i1 c1 Hnd Hi1) as [_ ->].
  destruct (fill_of_position palette _ i2 c2 Hnd Hi2) as [_ ->].
  rewrite !Nat.mod_small by lia. split.
  - apply nth_error_Some. lia.
  - intros Heq.
    assert (i1 = i2).
    { rewrite NoDup_nth_error in Hpal. apply Hpal; [lia | exact Heq]. }
    subst i2. congruence.
Qed.

Lemma fills_are_distinct_witness :
  fill_of (palette (Some schemeSet2)) (categories rows_of_two_pairs) (Str "Female")
    <> None /\
  (fill_of (palette (Some schemeSet2)) (categories rows_of_two_pairs) (Str "Female")
   = fill_of (palette (Some schemeSet2)) (categories rows_of_two_pairs) (Str "Male") ->
   Str "Female" = Str "Male").
Proof.
  apply (fills_are_distinct (palette (Some schemeSet2)) rows_of_two_pairs
           (Str "Female") (Str "Male")).
  - exact schemeSet2_NoDup.
  - vm_compute. lia.
  - vm_compute. left. reflexivity.
  - vm_compute. right. left. reflexivity.
Defined.

(** X17. When there are more categories than colours in the palette, two
    different categories share a colour: the first category and the one at
    the position of the length of the palette. *)
Theorem fills_repeat (palette : list string) (rows : list row) :
  0 < List.length palette ->
  List.length palette < List.length (categories rows) ->
  exists c1 c2,
    nth_error (categories rows) 0 = Some c1 /\
    nth_error (categories rows) (List.length palette) = Some c2 /\
    c1 <> c2 /\
    fill_of palette (categories rows) c1 = fill_of palette (categories rows) c2 /\
    fill_of palette (categories rows) c1 = nth_error palette 0.
Proof.
  intros Hpos Hlen.
  pose proof (categories_NoDup rows) as Hnd.
  destruct (nth_error (categories rows) 0) as [c1|] eqn:H1;
    [|apply nth_error_None in H1; lia].
  destruct (nth_error (categories rows) (List.length palette)) as [c2|] eqn:H2;
    [|apply nth_error_None in H2; lia].
  exists c1, c2. split; [reflexivity|]. split; [reflexivity|].
  destruct (fill_of_position palette _ _ c1 Hnd H1) as [_ Hf1].
  destruct (fill_of_position palette _ _ c2 Hnd H2) as [_ Hf2].
  rewrite Nat.Div0.mod_same in Hf2. rewrite Nat.mod_small in Hf1 by exact Hpos.
  split; [|split; congruence].
  intros <-. rewrite NoDup_nth_error in Hnd.
  assert (0 = List.length palette); [|lia].
  apply Hnd; [lia | congruence].
Qed.

Lemma fills_repeat_witness :
  exists c1 c2,
    nth_error (categories (map row_accessor records_of_nine_categories)) 0
      = Some c1 /\
    nth_error (categories (map row_accessor records_of_nine_categories))
              (List.length (palette (Some schemeSet2))) = Some c2 /\
    c1 <> c2 /\
    fill_of (palette (Some schemeSet2))
            (categories (map row_accessor records_of_nine_categories)) c1
    = fill_of (palette (Some schemeSet2))
              (categories (map row_accessor records_of_nine_categories)) c2 /\
    fill_of (palette (Some schemeSet2))
            (categories (map row_accessor records_of_nine_categories)) c1
    = nth_error (palette (Some schemeSet2)) 0.
Proof.
  apply (fills_repeat (palette (Some schemeSet2))
           (map row_accessor records_of_nine_categories));
    vm_compute; lia.
Defined.

